(** * The image slider and the fullscreen viewer of the landing page

    A shallow embedding of [initializeImageSlider] (both copies: the one of
    [assets/js/animations.js], which commits synchronously, and the one of the
    second script, which pre-loads the picture first) and of
    [setupImageFullscreen], followed by the properties of the specification
    that concern them.

    JavaScript numbers that hold array indices are modelled as [Z]; strings
    as [string]; a DOM element that [getElementById] may fail to find as an
    [option]; a handler as a computation in a state monad whose exceptions
    keep the mutations made before the throw. *)

From Stdlib Require Import ZArith List String Bool Lia.
#[local] Set Warnings "-register-all".
Import ListNotations.
Local Open Scope string_scope.
Local Open Scope Z_scope.

(** ** Handlers as state-and-exception computations *)

Module Js.

(** The outcome of running a piece of handler code: it returns normally
    with a value, or it throws; in both cases the state reached so far is
    kept, as a JavaScript exception does not undo assignments. *)
Inductive Result (S A : Type) : Type :=
| Ok (a : A) (s : S)
| Throw (e : string) (s : S).
Arguments Ok {S A} a s.
Arguments Throw {S A} e s.

Definition M (S A : Type) : Type := S -> Result S A.

Definition ret {S A} (a : A) : M S A := fun s => Ok a s.

Definition bind {S A B} (c : M S A) (k : A -> M S B) : M S B :=
  fun s => match c s with
           | Ok a s' => k a s'
           | Throw e s' => Throw e s'
           end.

Definition throw {S A} (e : string) : M S A := fun s => Throw e s.

Definition get {S} : M S S := fun s => Ok s s.

Definition gets {S A} (f : S -> A) : M S A := fun s => Ok (f s) s.

Definition modify {S} (f : S -> S) : M S unit := fun s => Ok tt (f s).

(** The state a computation leaves behind, thrown or not. *)
Definition stateOf {S A} (r : Result S A) : S :=
  match r with Ok _ s => s | Throw _ s => s end.

Definition threw {S A} (r : Result S A) : bool :=
  match r with Ok _ _ => false | Throw _ _ => true end.

(** [TypeError: Cannot read properties of undefined / null]. *)
Definition TypeError : string := "TypeError".

(** JavaScript truthiness of a string: the empty string is falsy. *)
Definition truthy (s : string) : bool :=
  match s with EmptyString => false | String _ _ => true end.

(** [v || ''] for a value [v] that is a string or [undefined]. *)
Definition orEmpty (v : option string) : string :=
  match v with
  | Some s => if truthy s then s else ""
  | None => ""
  end.

(** [ToString(v)] for a value that is a string or [undefined]. *)
Definition toString (v : option string) : string :=
  match v with Some s => s | None => "undefined" end.

End Js.

Import Js.

Declare Scope js_scope.
Delimit Scope js_scope with js.
Notation "x <- c ;; k" := (bind c (fun x => k))
  (at level 61, c at next level, right associativity) : js_scope.
Notation "c ;; k" := (bind c (fun _ => k))
  (at level 61, right associativity) : js_scope.
Local Open Scope js_scope.

(** ** The part of the DOM the two components touch *)

Module Dom.

(** The properties of an element that the scripts read or write. *)
Record Elem : Type := mkElem {
  el_src : string;
  el_alt : string;
  el_textContent : string;
  style_opacity : string;
  style_display : string
}.

Definition set_src (v : string) (e : Elem) : Elem :=
  mkElem v (el_alt e) (el_textContent e) (style_opacity e) (style_display e).
Definition set_alt (v : string) (e : Elem) : Elem :=
  mkElem (el_src e) v (el_textContent e) (style_opacity e) (style_display e).
Definition set_textContent (v : string) (e : Elem) : Elem :=
  mkElem (el_src e) (el_alt e) v (style_opacity e) (style_display e).
Definition set_opacity (v : string) (e : Elem) : Elem :=
  mkElem (el_src e) (el_alt e) (el_textContent e) v (style_display e).
Definition set_display (v : string) (e : Elem) : Elem :=
  mkElem (el_src e) (el_alt e) (el_textContent e) (style_opacity e) v.

(** An element freshly parsed from a page that sets none of these. *)
Definition blank : Elem := mkElem "" "" "" "" "".


End Dom.

Import Dom.

(** ** The slider *)

(** An entry of the [images] array. *)
Record Entry : Type := mkEntry { src : string; caption : string }.

(** The array literal of [initializeImageSlider]. *)
Definition images : list Entry :=
  [ mkEntry "assets/images/Main Menu Showcase.PNG" "Main Menu";
    mkEntry "assets/images/Agent Showcase.png" "Agent Mode Showcase";
    mkEntry "assets/images/Agent Mode New commands.PNG" "Agent Mode - New Commands";
    mkEntry "assets/images/Second Agent.PNG" "Agent Mode - Example Interaction";
    mkEntry "assets/images/First Implementation Chat With Ai.png" "Chat With AI - Initial Query";
    mkEntry "assets/images/Second Implementation Chat With Ai.PNG" "Chat With AI - Follow-up" ].

(** [images.length]. *)
Definition len (es : list Entry) : Z := Z.of_nat (List.length es).

(** [images[i]]: [undefined] outside [0 .. length-1], also for [-1]. *)
Definition at_index (es : list Entry) (i : Z) : option Entry :=
  if i <? 0 then None else nth_error es (Z.to_nat i).

(** [(currentIndex > 0) ? currentIndex - 1 : images.length - 1]. *)
Definition prevIndex (es : list Entry) (i : Z) : Z :=
  if i >? 0 then i - 1 else len es - 1.

(** [(currentIndex < images.length - 1) ? currentIndex + 1 : 0]. *)
Definition nextIndex (es : list Entry) (i : Z) : Z :=
  if i <? len es - 1 then i + 1 else 0.

(** An off-screen [Image] whose load was started and has not completed:
    the address it was given, and the value [currentIndex] had when
    [updateSlider] created it. *)
Record Request : Type := mkRequest { r_src : string; r_index : Z }.

(** Everything [initializeImageSlider] reads or writes: the four elements
    looked up by id, the closure variable [currentIndex], which listeners
    have been attached, the loads in flight and the console. *)
Record World : Type := mkWorld {
  sliderImage : option Elem;
  imageCaption : option Elem;
  prevButton : option Elem;
  nextButton : option Elem;
  currentIndex : Z;
  prevListener : bool;
  nextListener : bool;
  pending : list Request;
  console : list string
}.

(** The page before the script runs. *)
Definition page (img cap prv nxt : option Elem) : World :=
  mkWorld img cap prv nxt 0 false false [] [].

Definition with_sliderImage (f : Elem -> Elem) (w : World) : World :=
  mkWorld (option_map f (sliderImage w)) (imageCaption w) (prevButton w)
          (nextButton w) (currentIndex w) (prevListener w) (nextListener w)
          (pending w) (console w).
Definition with_imageCaption (f : Elem -> Elem) (w : World) : World :=
  mkWorld (sliderImage w) (option_map f (imageCaption w)) (prevButton w)
          (nextButton w) (currentIndex w) (prevListener w) (nextListener w)
          (pending w) (console w).
Definition with_prevButton (f : Elem -> Elem) (w : World) : World :=
  mkWorld (sliderImage w) (imageCaption w) (option_map f (prevButton w))
          (nextButton w) (currentIndex w) (prevListener w) (nextListener w)
          (pending w) (console w).
Definition with_nextButton (f : Elem -> Elem) (w : World) : World :=
  mkWorld (sliderImage w) (imageCaption w) (prevButton w)
          (option_map f (nextButton w)) (currentIndex w) (prevListener w)
          (nextListener w) (pending w) (console w).
Definition with_currentIndex (i : Z) (w : World) : World :=
  mkWorld (sliderImage w) (imageCaption w) (prevButton w) (nextButton w)
          i (prevListener w) (nextListener w) (pending w) (console w).
Definition with_prevListener (w : World) : World :=
  mkWorld (sliderImage w) (imageCaption w) (prevButton w) (nextButton w)
          (currentIndex w) true (nextListener w) (pending w) (console w).
Definition with_nextListener (w : World) : World :=
  mkWorld (sliderImage w) (imageCaption w) (prevButton w) (nextButton w)
          (currentIndex w) (prevListener w) true (pending w) (console w).
Definition with_pending (p : list Request) (w : World) : World :=
  mkWorld (sliderImage w) (imageCaption w) (prevButton w) (nextButton w)
          (currentIndex w) (prevListener w) (nextListener w) p (console w).
Definition with_console (c : list string) (w : World) : World :=
  mkWorld (sliderImage w) (imageCaption w) (prevButton w) (nextButton w)
          (currentIndex w) (prevListener w) (nextListener w) (pending w) c.

(** Writing a property of an element that was not found is a [TypeError]. *)
Definition assign (sel : World -> option Elem)
    (upd : (Elem -> Elem) -> World -> World) (f : Elem -> Elem) : M World unit :=
  fun w => match sel w with
           | Some _ => Ok tt (upd f w)
           | None => Throw TypeError w
           end.

Definition log (line : string) : M World unit :=
  modify (fun w => with_console (console w ++ [line]) w).

(** [!sliderImage || !imageCaption || !prevButton || !nextButton]. *)
Definition anyMissing (w : World) : bool :=
  match sliderImage w, imageCaption w, prevButton w, nextButton w with
  | Some _, Some _, Some _, Some _ => false
  | _, _, _, _ => true
  end.

(** What the user and the network can make happen: a click on either
    button, and the completion (load or error) of the [k]-th load still in
    flight. *)
Inductive Event : Type :=
| ClickPrev
| ClickNext
| LoadDone (k : nat) (ok : bool).

(** Removes the [k]-th element. *)
Fixpoint remove_nth {A} (k : nat) (l : list A) : list A :=
  match l, k with
  | [], _ => []
  | _ :: t, O => t
  | h :: t, S k' => h :: remove_nth k' t
  end.

(** [images[i].]: the entry at [i], or a [TypeError] when the lookup gives
    [undefined] and a property of it is read. *)
Definition entry (es : list Entry) (i : Z) : M World Entry :=
  fun w => match at_index es i with
           | Some e => Ok e w
           | None => Throw TypeError w
           end.

(** [images[currentIndex].]. *)
Definition current (es : list Entry) : M World Entry :=
  i <- gets currentIndex ;; entry es i.

(** [prevButton.addEventListener('click', ...)] and the same for
    [nextButton]. *)
Definition listenPrev : M World unit :=
  fun w => match prevButton w with
           | Some _ => Ok tt (with_prevListener w)
           | None => Throw TypeError w
           end.
Definition listenNext : M World unit :=
  fun w => match nextButton w with
           | Some _ => Ok tt (with_nextListener w)
           | None => Throw TypeError w
           end.

(** The [else] branch that ends both copies of [initializeImageSlider]. *)
Definition showNoImages : M World unit :=
  assign imageCaption with_imageCaption (set_textContent "No images to display.") ;;
  assign sliderImage with_sliderImage (set_display "none") ;;
  assign prevButton with_prevButton (set_display "none") ;;
  assign nextButton with_nextButton (set_display "none").

(** *** The copy that pre-loads the picture before it commits *)

Module Preload.

(** [updateSlider]: dims the picture, creates an off-screen [Image] and
    starts its load; [onload] and [onerror] run later, see [dispatch]. *)
Definition updateSlider (es : list Entry) : M World unit :=
  assign sliderImage with_sliderImage (set_opacity "0.5") ;;
  e <- current es ;;
  i <- gets currentIndex ;;
  modify (fun w => with_pending (pending w ++ [mkRequest (src e) i]) w).

(** [img.onload]; every statement reads [currentIndex] when it runs. *)
Definition onload (es : list Entry) : M World unit :=
  e1 <- current es ;;
  assign sliderImage with_sliderImage (set_src (src e1)) ;;
  e2 <- current es ;;
  assign sliderImage with_sliderImage (set_alt (caption e2)) ;;
  e3 <- current es ;;
  assign imageCaption with_imageCaption (set_textContent (caption e3)) ;;
  assign sliderImage with_sliderImage (set_opacity "1").

(** [img.onerror]. *)
Definition onerror (es : list Entry) : M World unit :=
  e <- current es ;;
  log ("Failed to load image: " ++ src e) ;;
  assign sliderImage with_sliderImage (set_src "") ;;
  assign sliderImage with_sliderImage (set_alt "Image failed to load") ;;
  assign imageCaption with_imageCaption (set_textContent "Image failed to load") ;;
  assign sliderImage with_sliderImage (set_opacity "1").

(** The listener of [prevButton]. *)
Definition onPrevClick (es : list Entry) : M World unit :=
  modify (fun w => with_currentIndex (prevIndex es (currentIndex w)) w) ;;
  updateSlider es.

(** The listener of [nextButton]. *)
Definition onNextClick (es : list Entry) : M World unit :=
  modify (fun w => with_currentIndex (nextIndex es (currentIndex w)) w) ;;
  updateSlider es.

(** [initializeImageSlider], with the array as a parameter. *)
Definition initializeImageSlider (es : list Entry) : M World unit :=
  log "Image slider elements:" ;;
  w <- get ;;
  if anyMissing w then
    log "Image slider elements not found"
  else
    (w0 <- get ;;
     match sliderImage w0 with
     | Some _ =>
         if len es >? 0 then
           a <- entry es 0 ;;
           assign sliderImage with_sliderImage (set_src (src a)) ;;
           b <- entry es 0 ;;
           assign sliderImage with_sliderImage (set_alt (caption b)) ;;
           w1 <- get ;;
           match imageCaption w1 with
           | Some _ =>
               c <- entry es 0 ;;
               assign imageCaption with_imageCaption (set_textContent (caption c))
           | None => ret tt
           end
         else ret tt
     | None => ret tt
     end) ;;
    listenPrev ;;
    listenNext ;;
    if len es >? 0 then updateSlider es else showNoImages.

(** One turn of the event loop. A click on a button without a listener
    does nothing; so does the completion of a load that is not in
    flight. A completed load leaves the list of loads in flight. *)
Definition dispatch (es : list Entry) (ev : Event) : M World unit :=
  fun w =>
    match ev with
    | ClickPrev => if prevListener w then onPrevClick es w else Ok tt w
    | ClickNext => if nextListener w then onNextClick es w else Ok tt w
    | LoadDone k ok =>
        match nth_error (pending w) k with
        | Some _ =>
            (modify (fun w => with_pending (remove_nth k (pending w)) w) ;;
             if ok then onload es else onerror es) w
        | None => Ok tt w
        end
    end.

(** An exception thrown by a handler ends that handler only. *)
Definition step (es : list Entry) (w : World) (ev : Event) : World :=
  stateOf (dispatch es ev w).

Definition run (es : list Entry) (evs : list Event) (w : World) : World :=
  fold_left (step es) evs w.

(** The page after the script has run on it. *)
Definition start (es : list Entry) (w : World) : World :=
  stateOf (initializeImageSlider es w).

End Preload.

(** *** The copy of [animations.js], which commits at once *)

Module Animations.

(** [updateSlider]. *)
Definition updateSlider (es : list Entry) : M World unit :=
  e1 <- current es ;;
  assign sliderImage with_sliderImage (set_src (src e1)) ;;
  e2 <- current es ;;
  assign sliderImage with_sliderImage (set_alt (caption e2)) ;;
  e3 <- current es ;;
  assign imageCaption with_imageCaption (set_textContent (caption e3)).

Definition onPrevClick (es : list Entry) : M World unit :=
  modify (fun w => with_currentIndex (prevIndex es (currentIndex w)) w) ;;
  updateSlider es.

Definition onNextClick (es : list Entry) : M World unit :=
  modify (fun w => with_currentIndex (nextIndex es (currentIndex w)) w) ;;
  updateSlider es.

(** [initializeImageSlider], with the array as a parameter. *)
Definition initializeImageSlider (es : list Entry) : M World unit :=
  w <- get ;;
  if anyMissing w then
    ret tt
  else
    listenPrev ;;
    listenNext ;;
    if len es >? 0 then updateSlider es else showNoImages.

(** This copy starts no load, so no load ever completes. *)
Definition dispatch (es : list Entry) (ev : Event) : M World unit :=
  fun w =>
    match ev with
    | ClickPrev => if prevListener w then onPrevClick es w else Ok tt w
    | ClickNext => if nextListener w then onNextClick es w else Ok tt w
    | LoadDone _ _ => Ok tt w
    end.

Definition step (es : list Entry) (w : World) (ev : Event) : World :=
  stateOf (dispatch es ev w).

Definition run (es : list Entry) (evs : list Event) (w : World) : World :=
  fold_left (step es) evs w.

Definition start (es : list Entry) (w : World) : World :=
  stateOf (initializeImageSlider es w).

End Animations.

(** The page of the site: the four elements exist and carry nothing yet. *)
Definition fullPage : World :=
  page (Some blank) (Some blank) (Some blank) (Some blank).

(** The three entries of the end-to-end scenario. *)
Definition abc : list Entry :=
  [ mkEntry "a.png" "A"; mkEntry "b.png" "B"; mkEntry "c.png" "C" ].

(** ** The fullscreen viewer *)

Module Viewer.

(** The document the clickable pictures live in. Tags are written in
    lower case. [this.src] and [this.alt] are strings on an [img] and
    [undefined] on an element that has no such property. *)
Inductive Node : Type :=
| Text (s : string)
| El (tag id : string) (classes : list string)
     (src alt : option string) (kids : list Node).

(** A node is addressed by the child positions that lead to it. *)
Definition Path : Type := list nat.

Definition tagOf (n : Node) : string :=
  match n with Text _ => "" | El t _ _ _ _ _ => t end.
Definition idOf (n : Node) : string :=
  match n with Text _ => "" | El _ i _ _ _ _ => i end.
Definition classesOf (n : Node) : list string :=
  match n with Text _ => [] | El _ _ c _ _ _ => c end.
Definition srcOf (n : Node) : option string :=
  match n with Text _ => None | El _ _ _ s _ _ => s end.
Definition altOf (n : Node) : option string :=
  match n with Text _ => None | El _ _ _ _ a _ => a end.
Definition kidsOf (n : Node) : list Node :=
  match n with Text _ => [] | El _ _ _ _ _ k => k end.
Definition isElement (n : Node) : bool :=
  match n with Text _ => false | El _ _ _ _ _ _ => true end.

Definition hasClass (c : string) (n : Node) : bool :=
  existsb (String.eqb c) (classesOf n).
Definition hasId (i : string) (n : Node) : bool :=
  isElement n && String.eqb i (idOf n).
Definition hasTag (t : string) (n : Node) : bool :=
  isElement n && String.eqb t (tagOf n).

(** [node.textContent]: the texts below the node, in document order. *)
Fixpoint textContent (n : Node) : string :=
  match n with
  | Text s => s
  | El _ _ _ _ _ kids => String.concat "" (map textContent kids)
  end.

Definition firstSome {A} (l : list (option A)) : option A :=
  fold_right (fun o r => match o with Some a => Some a | None => r end) None l.

(** The first element with class [c] among a node and what is below it,
    in document order. *)
Fixpoint firstWithClass (c : string) (n : Node) : option Node :=
  match n with
  | Text _ => None
  | El _ _ _ _ _ kids =>
      if hasClass c n then Some n
      else firstSome (map (firstWithClass c) kids)
  end.

(** [node.querySelector('.' + c)]: descendants only. *)
Definition querySelector (c : string) (n : Node) : option Node :=
  firstSome (map (firstWithClass c) (kidsOf n)).

(** The node at a path together with its ancestors, the node first and
    the root last; [None] when the path leaves the tree. *)
Fixpoint lineage (n : Node) (p : Path) (above : list Node)
    : option (list Node) :=
  match p with
  | [] => Some (n :: above)
  | k :: p' =>
      match nth_error (kidsOf n) k with
      | Some child => lineage child p' (n :: above)
      | None => None
      end
  end.

(** [this.closest('.' + c)]: the element itself or its nearest ancestor
    with class [c]. *)
Definition closest (c : string) (line : list Node) : option Node :=
  find (hasClass c) line.

(** The paths of all elements, in document order. *)
Fixpoint elementPaths (n : Node) : list Path :=
  match n with
  | Text _ => []
  | El _ _ _ _ _ kids =>
      [] :: (fix below (k : nat) (l : list Node) : list Path :=
               match l with
               | [] => []
               | child :: rest =>
                   (map (cons k) (elementPaths child) ++ below (S k) rest)%list
               end) 0%nat kids
  end.

(** Whether an element, given with its ancestors, matches
    [clickableImageSelectors.join(', ')]:
    ['.mcp-showcase-image, .gallery-image, .hero-showcase-gif img,
      #visual-showcase img, .slider-container img']. *)
Definition matchesClickable (line : list Node) : bool :=
  match line with
  | [] => false
  | this :: ancestors =>
      isElement this &&
      (hasClass "mcp-showcase-image" this
       || hasClass "gallery-image" this
       || (hasTag "img" this && existsb (hasClass "hero-showcase-gif") ancestors)
       || (hasTag "img" this && existsb (hasId "visual-showcase") ancestors)
       || (hasTag "img" this && existsb (hasClass "slider-container") ancestors))
  end.

(** [document.querySelectorAll(...)] on the document as it is now. *)
Definition querySelectorAll (doc : Node) : list Path :=
  filter (fun p => match lineage doc p [] with
                   | Some line => matchesClickable line
                   | None => false
                   end)
         (elementPaths doc).

(** The state [setupImageFullscreen] works on: the document, the four
    elements of the modal, [document.body.style.overflow], the elements
    that received an [onclick] and the other handlers installed. *)
Record World : Type := mkWorld {
  document : Node;
  modal : option Elem;
  modalImg : option Elem;
  captionText : option Elem;
  closeBtn : option Elem;
  overflow : string;
  clickable : list Path;
  closeHandler : bool;
  modalHandler : bool;
  keyListener : bool
}.

(** The page before the script runs; [ov] is the inline [overflow] the
    body comes with. *)
Definition page (doc : Node) (m mi ct cb : option Elem) (ov : string) : World :=
  mkWorld doc m mi ct cb ov [] false false false.

Definition with_modal (f : Elem -> Elem) (w : World) : World :=
  mkWorld (document w) (option_map f (modal w)) (modalImg w) (captionText w)
          (closeBtn w) (overflow w) (clickable w) (closeHandler w)
          (modalHandler w) (keyListener w).
Definition with_modalImg (f : Elem -> Elem) (w : World) : World :=
  mkWorld (document w) (modal w) (option_map f (modalImg w)) (captionText w)
          (closeBtn w) (overflow w) (clickable w) (closeHandler w)
          (modalHandler w) (keyListener w).
Definition with_captionText (f : Elem -> Elem) (w : World) : World :=
  mkWorld (document w) (modal w) (modalImg w) (option_map f (captionText w))
          (closeBtn w) (overflow w) (clickable w) (closeHandler w)
          (modalHandler w) (keyListener w).
Definition with_overflow (v : string) (w : World) : World :=
  mkWorld (document w) (modal w) (modalImg w) (captionText w)
          (closeBtn w) v (clickable w) (closeHandler w)
          (modalHandler w) (keyListener w).
Definition with_clickable (l : list Path) (w : World) : World :=
  mkWorld (document w) (modal w) (modalImg w) (captionText w)
          (closeBtn w) (overflow w) l (closeHandler w)
          (modalHandler w) (keyListener w).
Definition with_closeHandler (w : World) : World :=
  mkWorld (document w) (modal w) (modalImg w) (captionText w)
          (closeBtn w) (overflow w) (clickable w) true
          (modalHandler w) (keyListener w).
Definition with_modalHandler (w : World) : World :=
  mkWorld (document w) (modal w) (modalImg w) (captionText w)
          (closeBtn w) (overflow w) (clickable w) (closeHandler w)
          true (keyListener w).
Definition with_keyListener (w : World) : World :=
  mkWorld (document w) (modal w) (modalImg w) (captionText w)
          (closeBtn w) (overflow w) (clickable w) (closeHandler w)
          (modalHandler w) true.

(** Writing a property of an element that was not found throws. *)
Definition assign (sel : World -> option Elem)
    (upd : (Elem -> Elem) -> World -> World) (f : Elem -> Elem)
    : M World unit :=
  fun w => match sel w with
           | Some _ => Ok tt (upd f w)
           | None => Throw TypeError w
           end.

(** [this.closest('.mcp-showcase-item')?.querySelector('.image-caption')]. *)
Definition nearbyCaption (line : list Node) : option Node :=
  match closest "mcp-showcase-item" line with
  | Some item => querySelector "image-caption" item
  | None => None
  end.

(** The value of [captionContent] when it is written to the modal. *)
Definition captionContent (this : Node) (line : list Node) : string :=
  let initial := orEmpty (altOf this) in
  match nearbyCaption line with
  | Some c => textContent c
  | None => initial
  end.

(** [img.onclick], with [this] the clicked element and [line] the
    element followed by its ancestors. *)
Definition imgOnclick (this : Node) (line : list Node) : M World unit :=
  assign modal with_modal (set_display "block") ;;
  assign modalImg with_modalImg (set_src (toString (srcOf this))) ;;
  assign captionText with_captionText
         (set_textContent (captionContent this line)) ;;
  modify (with_overflow "hidden").

(** [closeBtn.onclick]. *)
Definition closeOnclick : M World unit :=
  assign modal with_modal (set_display "none") ;;
  modify (with_overflow "auto").

(** What a click inside the modal can land on. *)
Inductive Target : Type :=
| OnBackdrop      (* the modal element itself *)
| OnModalImage
| OnModalCaption
| OnCloseControl.

Definition isBackdrop (t : Target) : bool :=
  match t with OnBackdrop => true | _ => false end.

(** [modal.onclick]: [event.target === modal]. *)
Definition modalOnclick (target : Target) : M World unit :=
  if isBackdrop target then
    assign modal with_modal (set_display "none") ;;
    modify (with_overflow "auto")
  else ret tt.

(** [modal.style.display], a [TypeError] when [modal] is [null]. *)
Definition modalDisplay : M World string :=
  fun w => match modal w with
           | Some m => Ok (style_display m) w
           | None => Throw TypeError w
           end.

(** The [keydown] listener of the document. *)
Definition onKeydown (key : string) : M World unit :=
  if String.eqb key "Escape" then
    d <- modalDisplay ;;
    if String.eqb d "block" then
      assign modal with_modal (set_display "none") ;;
      modify (with_overflow "auto")
    else ret tt
  else ret tt.

(** [setupImageFullscreen]. Assigning [onclick] on a [null] element
    throws and leaves the rest of the function undone. The class
    ['clickable-image'] that the loop adds is read by no handler and by
    none of the selectors, and is left out. *)
Definition setupImageFullscreen : M World unit :=
  modify (fun w => with_clickable (querySelectorAll (document w)) w) ;;
  (fun w => match closeBtn w with
            | Some _ => Ok tt (with_closeHandler w)
            | None => Throw TypeError w
            end) ;;
  (fun w => match modal w with
            | Some _ => Ok tt (with_modalHandler w)
            | None => Throw TypeError w
            end) ;;
  modify with_keyListener.

Inductive Event : Type :=
| ClickImage (p : Path)
| ClickModal (target : Target)
| KeyDown (key : string).

(** Runs the listeners an event reaches one after the other; a listener
    that throws does not keep the next one from running. *)
Fixpoint listeners (l : list (M World unit)) : M World unit :=
  match l with
  | [] => ret tt
  | h :: t =>
      fun w => match h w with
               | Ok _ w' => listeners t w'
               | Throw e w' =>
                   match listeners t w' with
                   | Ok _ w'' => Throw e w''
                   | Throw e' w'' => Throw e w''
                   end
               end
  end.

Definition pathEqb (p q : Path) : bool :=
  if list_eq_dec Nat.eq_dec p q then true else false.

Definition registered (w : World) (p : Path) : bool :=
  existsb (pathEqb p) (clickable w).

Definition isCloseControl (t : Target) : bool :=
  match t with OnCloseControl => true | _ => false end.

(** The nodes a click on the node at [p] passes through while it
    bubbles, the node first and the root last, each with its path and with
    the node followed by its ancestors; [None] when the path leaves the
    tree. [here] is the path of [n]. *)
Fixpoint propagation (n : Node) (above : list Node) (here p : Path)
    : option (list (Path * list Node)) :=
  match p with
  | [] => Some [(here, n :: above)]
  | k :: p' =>
      match nth_error (kidsOf n) k with
      | Some child =>
          option_map (fun inner => (inner ++ [(here, n :: above)])%list)
                     (propagation child (n :: above) (here ++ [k])%list p')
      | None => None
      end
  end.

(** The [onclick] a node on the way has, if it was given one at set-up;
    [this] is the node the handler belongs to. *)
Definition onclickOf (w : World) (stop : Path * list Node)
    : list (M World unit) :=
  let (q, line) := stop in
  if registered w q then
    match line with
    | this :: _ => [imgOnclick this line]
    | [] => []
    end
  else [].

(** One turn of the event loop. A click on a node of the document
    bubbles: it reaches the [onclick] of that node and then those of its
    ancestors, innermost first, each on the state the one before left. A
    click inside the modal reaches the handler of the close control when
    it lands on it, and then bubbles to [modal.onclick]. *)
Definition dispatch (ev : Event) : M World unit :=
  fun w =>
    match ev with
    | ClickImage p =>
        match propagation (document w) [] [] p with
        | Some route => listeners (flat_map (onclickOf w) route) w
        | None => Ok tt w
        end
    | ClickModal target =>
        listeners
          ((if isCloseControl target && closeHandler w
            then [closeOnclick] else [])
           ++ (if modalHandler w then [modalOnclick target] else []))%list w
    | KeyDown key =>
        if keyListener w then onKeydown key w else Ok tt w
    end.

Definition step (w : World) (ev : Event) : World := stateOf (dispatch ev w).

Definition run (evs : list Event) (w : World) : World := fold_left step evs w.

Definition start (w : World) : World := stateOf (setupImageFullscreen w).

(** The modal is shown when its inline [display] is ['block']. *)
Definition visible (w : World) : bool :=
  match modal w with
  | Some m => String.eqb (style_display m) "block"
  | None => false
  end.

(** A gallery item with its own caption, a bare gallery picture, and an
    element that is no [img]. *)
Definition sampleDocument : Node :=
  El "body" "" [] None None
    [ El "div" "" ["mcp-showcase-item"] None None
        [ El "img" "" ["mcp-showcase-image"] (Some "one.png") (Some "alt one") [];
          El "p" "" ["image-caption"] None None [Text "Caption "; Text "one"] ];
      El "img" "" ["gallery-image"] (Some "two.png") (Some "") [];
      El "div" "" ["gallery-image"] None None [];
      El "div" "" ["slider-container"] None None
        [ El "img" "sliderImage" [] (Some "a.png") (Some "A") [] ];
      El "img" "" ["logo"] (Some "logo.png") (Some "Logo") [] ].

Definition samplePage : World :=
  page sampleDocument (Some blank) (Some blank) (Some blank) (Some blank) "".

(** A picture inside a container that was made clickable as well. *)
Definition nestedDocument : Node :=
  El "body" "" [] None None
    [ El "div" "" ["gallery-image"] None None
        [ El "img" "" ["gallery-image"] (Some "x.png") (Some "X") [] ] ].

Definition nestedPage : World :=
  page nestedDocument (Some blank) (Some blank) (Some blank) (Some blank) "".

End Viewer.

(** ** Notions the properties are stated with *)

(** A valid position in the array. *)
Definition inRange (es : list Entry) (i : Z) : Prop := 0 <= i < len es.


(** [k] applications of a function. *)
Fixpoint iter {A} (k : nat) (f : A -> A) (a : A) : A :=
  match k with O => a | S k' => iter k' f (f a) end.

(** [goNext] and [goPrevious]: the two listeners, as state transformers. *)
Definition goNext (es : list Entry) (w : World) : World :=
  stateOf (Preload.onNextClick es w).
Definition goPrevious (es : list Entry) (w : World) : World :=
  stateOf (Preload.onPrevClick es w).

(** The index after an event, read off the handlers. *)
Definition indexAfter (es : list Entry) (w : World) (ev : Event) : Z :=
  match ev with
  | ClickPrev => if prevListener w then prevIndex es (currentIndex w) else currentIndex w
  | ClickNext => if nextListener w then nextIndex es (currentIndex w) else currentIndex w
  | LoadDone _ _ => currentIndex w
  end.


(** The picture and its caption were found. *)
Definition present (w : World) : bool :=
  match sliderImage w, imageCaption w with
  | Some _, Some _ => true
  | _, _ => false
  end.

(** A load in flight is the pre-load of the entry at [r_index]. *)
Definition requestOf (es : list Entry) (r : Request) : Prop :=
  exists e, at_index es (r_index r) = Some e /\ r_src r = src e.

(** What holds of every state the pre-loading copy can reach. *)
Definition consistent (es : list Entry) (w : World) : Prop :=
  (prevListener w = true -> present w = true) /\
  (nextListener w = true -> present w = true) /\
  (pending w <> [] -> present w = true /\ inRange es (currentIndex w)) /\
  Forall (requestOf es) (pending w).

(** The second property of the slider as the specification words it: the
    successful pre-load of an entry commits that very entry. *)
Definition commitsRequestedEntry (es : list Entry) (w : World) (k : nat) : Prop :=
  forall r e,
    nth_error (pending w) k = Some r ->
    at_index es (r_index r) = Some e ->
    let w' := Preload.step es w (LoadDone k true) in
    option_map el_src (sliderImage w') = Some (src e) /\
    option_map el_alt (sliderImage w') = Some (caption e) /\
    option_map el_textContent (imageCaption w') = Some (caption e) /\
    option_map style_opacity (sliderImage w') = Some "1".


Definition isClick (ev : Event) : Prop := ev = ClickPrev \/ ev = ClickNext.


(** *** The caption of the viewer in the words of the specification *)

(** A node and everything below it, in document order. *)
Fixpoint subtree (n : Viewer.Node) : list Viewer.Node :=
  match n with
  | Viewer.Text _ => [n]
  | Viewer.El _ _ _ _ _ kids => n :: flat_map subtree kids
  end.

(** What is strictly below a node, in document order. *)
Definition descendants (n : Viewer.Node) : list Viewer.Node :=
  flat_map subtree (Viewer.kidsOf n).

(** The node a path leads to. *)
Fixpoint nodeAt (n : Viewer.Node) (p : Viewer.Path) : option Viewer.Node :=
  match p with
  | [] => Some n
  | k :: p' =>
      match nth_error (Viewer.kidsOf n) k with
      | Some child => nodeAt child p'
      | None => None
      end
  end.

(** Going down from [n] to the node at [p]: the last node met that is a
    showcase item, the node at [p] included; [best] is the last one met
    above [n]. *)
Fixpoint nearestItem (n : Viewer.Node) (p : Viewer.Path)
    (best : option Viewer.Node) : option Viewer.Node :=
  let best' := if Viewer.hasClass "mcp-showcase-item" n then Some n else best in
  match p with
  | [] => best'
  | k :: p' =>
      match nth_error (Viewer.kidsOf n) k with
      | Some child => nearestItem child p' best'
      | None => None
      end
  end.

(** The dedicated caption element of a showcase item: the first element
    of class [image-caption] below it. *)
Definition captionElement (item : Viewer.Node) : option Viewer.Node :=
  find (Viewer.hasClass "image-caption") (descendants item).

(** The text of a node: the text nodes in and below it, one after the
    other. *)
Definition textOf (n : Viewer.Node) : string :=
  String.concat ""
    (flat_map (fun d => match d with Viewer.Text s => [s] | _ => [] end)
              (subtree n)).

(** The caption the viewer is to show for the element at [p]: the text of
    the caption element of the nearest showcase item if there is one,
    otherwise the [alt] of the element, otherwise the empty string. *)
Definition captionSpec (doc : Viewer.Node) (p : Viewer.Path) : string :=
  let fallback :=
    match nodeAt doc p with
    | Some this => match Viewer.altOf this with Some a => a | None => "" end
    | None => ""
    end in
  match nearestItem doc p None with
  | Some item =>
      match captionElement item with
      | Some c => textOf c
      | None => fallback
      end
  | None => fallback
  end.

(** [q] is the path of an ancestor of the node at [p], or of the node
    itself. *)
Definition isPrefix (q p : Viewer.Path) : Prop := exists r, p = (q ++ r)%list.




(** Whether an element was found. *)
Definition found (o : option Elem) : bool :=
  match o with Some _ => true | None => false end.

(** What no handler of the viewer changes: the document, the elements
    that were made clickable, the handlers installed, and which elements of
    the modal exist. *)
Definition frame (w : Viewer.World)
    : Viewer.Node * list Viewer.Path * (bool * bool * bool) * (bool * bool * bool * bool) :=
  (Viewer.document w, Viewer.clickable w,
   (Viewer.closeHandler w, Viewer.modalHandler w, Viewer.keyListener w),
   (found (Viewer.modal w), found (Viewer.modalImg w),
    found (Viewer.captionText w), found (Viewer.closeBtn w))).

(** ** Tactics for handler code *)

(** Unfolds the monad and the element updates of the slider. *)
Ltac slider_unfold :=
  cbv [Preload.step Preload.dispatch Preload.onPrevClick Preload.onNextClick
       Preload.updateSlider Preload.onload Preload.onerror
       Preload.initializeImageSlider Preload.start
       Animations.step Animations.dispatch Animations.onPrevClick
       Animations.onNextClick Animations.updateSlider
       Animations.initializeImageSlider Animations.start
       showNoImages listenPrev listenNext current entry log assign
       bind ret get gets modify stateOf threw
       with_sliderImage with_imageCaption with_prevButton with_nextButton
       with_currentIndex with_prevListener with_nextListener with_pending
       with_console anyMissing page
       sliderImage imageCaption prevButton nextButton currentIndex
       prevListener nextListener pending console option_map] in *.

(** Splits on the innermost thing a [match] of the goal scrutinises. *)
Ltac split_match :=
  repeat (match goal with
          | |- context [match ?x with _ => _ end] =>
              lazymatch x with
              | context [match _ with _ => _ end] => fail
              | _ => destruct x eqn:?
              end
          end; cbv beta iota).


(** Unfolds the monad and the element updates of the viewer. *)
Ltac viewer_unfold :=
  cbv [Viewer.step Viewer.dispatch Viewer.imgOnclick Viewer.closeOnclick
       Viewer.modalOnclick Viewer.onKeydown Viewer.modalDisplay
       Viewer.setupImageFullscreen Viewer.start Viewer.assign
       Viewer.listeners Viewer.isBackdrop Viewer.isCloseControl
       Viewer.visible Viewer.registered Viewer.page
       bind ret get gets modify stateOf threw
       Viewer.with_modal Viewer.with_modalImg Viewer.with_captionText
       Viewer.with_overflow Viewer.with_clickable Viewer.with_closeHandler
       Viewer.with_modalHandler Viewer.with_keyListener
       Viewer.document Viewer.modal Viewer.modalImg Viewer.captionText
       Viewer.closeBtn Viewer.overflow Viewer.clickable Viewer.closeHandler
       Viewer.modalHandler Viewer.keyListener
       frame found option_map andb app] in *.


(** ** Further notions for the slider *)

(** What the picture and the caption element show: the [src] and the
    [alt] of the picture and the text of the caption. *)
Definition displays (w : World) (s a t : string) : Prop :=
  option_map el_src (sliderImage w) = Some s /\
  option_map el_alt (sliderImage w) = Some a /\
  option_map el_textContent (imageCaption w) = Some t.

(** The three belong to one entry. *)
Definition displaysEntry (w : World) (e : Entry) : Prop :=
  displays w (src e) (caption e) (caption e).

(** The clicks of [cs] when every pre-load, the initial one included,
    succeeds before the next click. *)
Definition settled (cs : list Event) : list Event :=
  LoadDone 0 true :: flat_map (fun c => [c; LoadDone 0 true]) cs.

(** What concerns the visibility of the slider: the two buttons, and the
    inline [display] of the picture and of the caption. *)
Definition layout (w : World)
    : option Elem * option Elem * option string * option string :=
  (prevButton w, nextButton w,
   option_map style_display (sliderImage w),
   option_map style_display (imageCaption w)).

(** A listener is attached only on a page that has the picture and the
    caption. *)
Definition attachedWhenPresent (w : World) : Prop :=
  (prevListener w = true -> present w = true) /\
  (nextListener w = true -> present w = true).

(** The picture and the caption show the entry at [currentIndex]. *)
Definition inSync (es : list Entry) (w : World) : Prop :=
  present w = true /\
  exists e, at_index es (currentIndex w) = Some e /\ displaysEntry w e.

(** The three values [onerror] writes. *)
Definition displaysError (w : World) : Prop :=
  displays w "" "Image failed to load" "Image failed to load".

(** What is shown is one entry of the array, or the error triple. *)
Definition coherent (es : list Entry) (w : World) : Prop :=
  (exists e, In e es /\ displaysEntry w e) \/ displaysError w.

(** The slider after it was started on an empty array, on a page whose
    four elements were [img], [cap], [prv] and [nxt]. *)
Definition disabled (img cap : Elem) (w : World) : Prop :=
  (currentIndex w = 0 \/ currentIndex w = -1) /\
  pending w = [] /\
  prevListener w = true /\ nextListener w = true /\
  (exists im, sliderImage w = Some im /\
              el_src im = el_src img /\ el_alt im = el_alt img /\
              style_display im = "none") /\
  imageCaption w = Some (set_textContent "No images to display." cap).

(** The pre-loading copy with no load in flight shows what the copy of
    [animations.js] shows, at full opacity, and holds the same index. *)
Definition settledMatch (es : list Entry) (wp wa : World) : Prop :=
  exists im ca,
    sliderImage wa = Some im /\ sliderImage wp = Some (set_opacity "1" im) /\
    imageCaption wa = Some ca /\ imageCaption wp = Some ca /\
    currentIndex wp = currentIndex wa /\ inRange es (currentIndex wa) /\
    pending wp = [] /\
    prevListener wp = true /\ prevListener wa = true /\
    nextListener wp = true /\ nextListener wa = true.

(** ** Further notions for the viewer *)




(** ** The theme toggler *)

Module Theme.

(** What [createThemeToggler] reads and writes: the [data-theme]
    attribute of the root element ([null] when absent), the entry
    ['theme'] of [localStorage] ([null] when absent), the [innerHTML] of
    the button once it is created, whether the click listener is attached,
    and what the media query ['(prefers-color-scheme: dark)'] answers. *)
Record World : Type := mkWorld {
  dataTheme : option string;
  stored : option string;
  button : option string;
  listener : bool;
  prefersDark : bool
}.

Definition sunIcon : string := "☀️".
Definition moonIcon : string := "🌙".

(** Truthiness of a value that is a string or [null]. *)
Definition truthyValue (v : option string) : bool :=
  match v with Some s => truthy s | None => false end.

(** [v === 'light'] for a value that is a string or [null]. *)
Definition isLight (v : option string) : bool :=
  match v with Some s => String.eqb s "light" | None => false end.

Definition setAttribute (v : string) (w : World) : World :=
  mkWorld (Some v) (stored w) (button w) (listener w) (prefersDark w).
Definition setItem (v : string) (w : World) : World :=
  mkWorld (dataTheme w) (Some v) (button w) (listener w) (prefersDark w).
Definition setInnerHTML (v : string) (w : World) : World :=
  mkWorld (dataTheme w) (stored w) (Some v) (listener w) (prefersDark w).
Definition addEventListener (w : World) : World :=
  mkWorld (dataTheme w) (stored w) (button w) true (prefersDark w).

(** The body of the click listener. *)
Definition onClick (w : World) : World :=
  let (newTheme, w1) :=
    if isLight (dataTheme w)
    then ("dark", setInnerHTML sunIcon w)
    else ("light", setInnerHTML moonIcon w) in
  setItem newTheme (setAttribute newTheme w1).

(** [createThemeToggler]. *)
Definition createThemeToggler (w : World) : World :=
  let w0 := setInnerHTML "" w in
  let currentTheme := stored w0 in
  let w1 :=
    if truthyValue currentTheme then
      let w' := setAttribute (toString currentTheme) w0 in
      setInnerHTML (if isLight currentTheme then moonIcon else sunIcon) w'
    else if prefersDark w0 then
      setInnerHTML sunIcon (setAttribute "dark" w0)
    else
      setInnerHTML moonIcon (setAttribute "light" w0) in
  let w2 :=
    if negb (truthyValue (dataTheme w1))
    then setInnerHTML sunIcon (setAttribute "dark" w1)
    else w1 in
  addEventListener w2.

(** A page as it is loaded: the attribute the markup gives the root
    element, what the storage holds and what the system prefers. *)
Definition load (attribute storage : option string) (dark : bool) : World :=
  createThemeToggler (mkWorld attribute storage None false dark).

(** A click on the button; nothing happens without the listener. *)
Definition click (w : World) : World :=
  if listener w then onClick w else w.

Definition clicks (n : nat) (w : World) : World := iter n click w.

(** Leaving the page and loading it again: the storage is all that
    survives. *)
Definition reload (attribute : option string) (dark : bool) (w : World) : World :=
  load attribute (stored w) dark.

End Theme.

(** What holds of the toggler in every state: the listener is attached,
    the root element has a non-empty theme, the button shows the icon of
    that theme, and a non-empty stored theme is the theme shown. *)
Definition themeConsistent (w : Theme.World) : Prop :=
  Theme.listener w = true /\
  Theme.truthyValue (Theme.dataTheme w) = true /\
  Theme.button w = Some (if Theme.isLight (Theme.dataTheme w)
                         then Theme.moonIcon else Theme.sunIcon) /\
  (Theme.truthyValue (Theme.stored w) = true -> Theme.stored w = Theme.dataTheme w).

(** ** The typing effect *)

Module Typing.

(** A JavaScript string: its UTF-16 code units. *)
Definition JsString : Type := list Z.

(** The line feed, the carriage return and the null character. *)
Definition newline : Z := 10.
Definition carriageReturn : Z := 13.
Definition nul : Z := 0.

(** [s.split('\n')]: the pieces between line feeds; one piece for a text
    without line feed, the empty text included. *)
Fixpoint split (s : JsString) : list JsString :=
  match s with
  | [] => [[]]
  | c :: rest =>
      if c =? newline then [] :: split rest
      else match split rest with
           | line :: more => (c :: line) :: more
           | [] => [[c]]
           end
  end.

(** [line.charAt(i)]: the code unit at [i] as a string, empty outside the
    line. *)
Definition charAt (i : nat) (line : JsString) : JsString :=
  match nth_error line i with
  | Some c => [c]
  | None => []
  end.

(** What the HTML parser makes of one code unit appended to the markup of
    a text: a carriage return becomes a line feed, a null character is
    dropped, any other code unit is that character of the text (a lone
    [&] or [<] at the end of the input is text). *)
Definition parsed (c : Z) : JsString :=
  if c =? carriageReturn then [newline]
  else if c =? nul then []
  else [c].

(** What [createTypingEffect] and [typeText] read and write.
    - [gsapLoaded]: whether the global [gsap] exists;
    - [asciiArt]: the [innerHTML] of the element of class [ascii-art],
      the created [div] apart; [None] when the page has no such element;
    - [outputDiv]: the text the created [div] holds, [None] before it is
      created;
    - [whiteSpace]: [outputDiv.style.whiteSpace];
    - [lines], [currentLine], [currentChar]: the closure variables;
    - [timers]: the delays of the time-outs of [typeText] not yet
      fired. *)
Record World : Type := mkWorld {
  gsapLoaded : bool;
  asciiArt : option JsString;
  outputDiv : option JsString;
  whiteSpace : string;
  lines : list JsString;
  currentLine : nat;
  currentChar : nat;
  timers : list Z
}.

(** The page before the script runs. *)
Definition page (gsap : bool) (art : option JsString) : World :=
  mkWorld gsap art None "" [] 0 0 [].

Definition with_asciiArt (v : JsString) (w : World) : World :=
  mkWorld (gsapLoaded w) (Some v) (outputDiv w) (whiteSpace w) (lines w)
          (currentLine w) (currentChar w) (timers w).
Definition with_outputDiv (v : JsString) (w : World) : World :=
  mkWorld (gsapLoaded w) (asciiArt w) (Some v) (whiteSpace w) (lines w)
          (currentLine w) (currentChar w) (timers w).
Definition with_whiteSpace (v : string) (w : World) : World :=
  mkWorld (gsapLoaded w) (asciiArt w) (outputDiv w) v (lines w)
          (currentLine w) (currentChar w) (timers w).
Definition with_lines (v : list JsString) (w : World) : World :=
  mkWorld (gsapLoaded w) (asciiArt w) (outputDiv w) (whiteSpace w) v
          (currentLine w) (currentChar w) (timers w).
Definition with_currentLine (v : nat) (w : World) : World :=
  mkWorld (gsapLoaded w) (asciiArt w) (outputDiv w) (whiteSpace w) (lines w)
          v (currentChar w) (timers w).
Definition with_currentChar (v : nat) (w : World) : World :=
  mkWorld (gsapLoaded w) (asciiArt w) (outputDiv w) (whiteSpace w) (lines w)
          (currentLine w) v (timers w).
Definition with_timers (v : list Z) (w : World) : World :=
  mkWorld (gsapLoaded w) (asciiArt w) (outputDiv w) (whiteSpace w) (lines w)
          (currentLine w) (currentChar w) v.

(** [setTimeout(typeText, delay)]. *)
Definition setTimeout (delay : Z) : M World unit :=
  modify (fun w => with_timers (timers w ++ [delay])%list w).

(** [outputDiv.innerHTML += s] for [s] of at most one code unit. The
    getter serialises the text the [div] holds, escaping the markup
    characters; the setter parses that markup followed by [s] and the
    [div] then holds the text it had followed by what the parser makes of
    [s]. *)
Definition appendOutput (s : JsString) : M World unit :=
  fun w => match outputDiv w with
           | Some text => Ok tt (with_outputDiv (text ++ flat_map parsed s)%list w)
           | None => Throw TypeError w
           end.

(** A use of the global [gsap]. *)
Definition useGsap : M World unit :=
  fun w => if gsapLoaded w then Ok tt w else Throw "ReferenceError" w.

(** [typeText]. *)
Definition typeText : M World unit :=
  w <- get ;;
  if (currentLine w <? List.length (lines w))%nat then
    let line := nth (currentLine w) (lines w) [] in
    if (currentChar w <? List.length line)%nat then
      appendOutput (charAt (currentChar w) line) ;;
      modify (fun w => with_currentChar (S (currentChar w)) w) ;;
      setTimeout 3
    else
      appendOutput [newline] ;;
      modify (fun w => with_currentLine (S (currentLine w)) w) ;;
      modify (with_currentChar 0) ;;
      setTimeout 30
  else ret tt.

(** [createTypingEffect]. *)
Definition createTypingEffect : M World unit :=
  w <- get ;;
  match asciiArt w with
  | None => ret tt
  | Some originalText =>
      modify (with_asciiArt []) ;;
      modify (with_lines (split originalText)) ;;
      useGsap ;;
      modify (with_currentLine 0) ;;
      modify (with_currentChar 0) ;;
      modify (with_outputDiv []) ;;
      modify (with_whiteSpace "pre") ;;
      setTimeout 500
  end.

(** The oldest time-out fires: it leaves the list and [typeText] runs.
    Without a time-out nothing happens. *)
Definition fire : M World unit :=
  fun w => match timers w with
           | _ :: rest => (modify (with_timers rest) ;; typeText) w
           | [] => Ok tt w
           end.

Definition tick (w : World) : World := stateOf (fire w).

Definition ticks (n : nat) (w : World) : World := iter n tick w.

Definition start (w : World) : World := stateOf (createTypingEffect w).


End Typing.



(** * Properties *)

(** ** Arithmetic of the two index updates *)

Lemma nextIndex_inRange es i : inRange es i -> inRange es (nextIndex es i).
Proof.
  unfold inRange, nextIndex. intros H.
  destruct (i <? len es - 1) eqn:E; [apply Z.ltb_lt in E | apply Z.ltb_ge in E]; lia.
Qed.

Lemma prevIndex_inRange es i : inRange es i -> inRange es (prevIndex es i).
Proof.
  unfold inRange, prevIndex. intros H.
  destruct (i >? 0) eqn:E; [apply Z.gtb_lt in E | rewrite Z.gtb_ltb in E; apply Z.ltb_ge in E]; lia.
Qed.

Lemma nextIndex_mod es i : inRange es i -> nextIndex es i = (i + 1) mod len es.
Proof.
  unfold inRange, nextIndex. intros H.
  destruct (i <? len es - 1) eqn:E; [apply Z.ltb_lt in E | apply Z.ltb_ge in E].
  - symmetry. apply Z.mod_small. lia.
  - assert (i + 1 = len es) as -> by lia. symmetry. apply Z.mod_same. lia.
Qed.

Lemma prevIndex_mod es i :
  inRange es i -> prevIndex es i = (i + (len es - 1)) mod len es.
Proof.
  unfold inRange, prevIndex. intros H.
  destruct (i >? 0) eqn:E; [apply Z.gtb_lt in E | rewrite Z.gtb_ltb in E; apply Z.ltb_ge in E].
  - replace (i + (len es - 1)) with ((i - 1) + 1 * len es) by lia.
    rewrite Z.mod_add by lia. symmetry. apply Z.mod_small. lia.
  - assert (i = 0) as -> by lia. symmetry. apply Z.mod_small. lia.
Qed.

Lemma iter_nextIndex es k : forall i,
  inRange es i -> iter k (nextIndex es) i = (i + Z.of_nat k) mod len es.
Proof.
  induction k as [|k IH]; intros i H; cbn [iter].
  - rewrite Z.add_0_r. symmetry. apply Z.mod_small. exact H.
  - rewrite IH by (apply nextIndex_inRange; exact H).
    rewrite nextIndex_mod by exact H.
    rewrite Zplus_mod_idemp_l. f_equal. lia.
Qed.

Lemma iter_prevIndex es k : forall i,
  inRange es i ->
  iter k (prevIndex es) i = (i + Z.of_nat k * (len es - 1)) mod len es.
Proof.
  induction k as [|k IH]; intros i H; cbn [iter].
  - cbn. rewrite Z.add_0_r. symmetry. apply Z.mod_small. exact H.
  - rewrite IH by (apply prevIndex_inRange; exact H).
    rewrite prevIndex_mod by exact H.
    rewrite Zplus_mod_idemp_l. f_equal. lia.
Qed.

Lemma len_pos es : es <> [] -> 0 < len es.
Proof. destruct es; [congruence | unfold len; cbn [List.length]; lia]. Qed.

Lemma at_index_inRange es i : inRange es i -> exists e, at_index es i = Some e.
Proof.
  unfold inRange, at_index, len. intros H.
  destruct (i <? 0) eqn:E; [apply Z.ltb_lt in E; lia|].
  destruct (nth_error es (Z.to_nat i)) eqn:N; [eauto|].
  apply nth_error_None in N. lia.
Qed.

(** ** What an event does to [currentIndex] and to the listeners *)

Lemma Preload_step_index es w ev :
  currentIndex (Preload.step es w ev) = indexAfter es w ev.
Proof.
  destruct w as [img cap prv nxt i pl nl pd cs].
  destruct ev; unfold indexAfter; slider_unfold; split_match; reflexivity.
Qed.

Lemma Animations_step_index es w ev :
  currentIndex (Animations.step es w ev) = indexAfter es w ev.
Proof.
  destruct w as [img cap prv nxt i pl nl pd cs].
  destruct ev; unfold indexAfter; slider_unfold; split_match; reflexivity.
Qed.

Lemma Preload_step_listeners es w ev :
  prevListener (Preload.step es w ev) = prevListener w /\
  nextListener (Preload.step es w ev) = nextListener w.
Proof.
  destruct w as [img cap prv nxt i pl nl pd cs].
  destruct ev; slider_unfold; split_match; split; congruence.
Qed.

Lemma Animations_step_listeners es w ev :
  prevListener (Animations.step es w ev) = prevListener w /\
  nextListener (Animations.step es w ev) = nextListener w.
Proof.
  destruct w as [img cap prv nxt i pl nl pd cs].
  destruct ev; slider_unfold; split_match; split; congruence.
Qed.

Lemma indexAfter_inRange es w ev :
  inRange es (currentIndex w) -> inRange es (indexAfter es w ev).
Proof.
  intros H. destruct ev; cbn [indexAfter]; try exact H.
  - destruct (prevListener w); [apply prevIndex_inRange|]; exact H.
  - destruct (nextListener w); [apply nextIndex_inRange|]; exact H.
Qed.

(** ** The script on a page: where the index and the listeners start *)

Lemma len_cons_gtb e es : (len (e :: es) >? 0) = true.
Proof. unfold len. cbn [List.length]. apply Z.gtb_lt. lia. Qed.

Lemma len_nil_gtb : (len [] >? 0) = false.
Proof. reflexivity. Qed.

Lemma at_index_head e es : at_index (e :: es) 0 = Some e.
Proof. reflexivity. Qed.

(** Runs the script symbolically once the page and the shape of the array
    are known. *)
Ltac slider_run :=
  repeat progress (slider_unfold;
                   rewrite ?len_cons_gtb, ?len_nil_gtb, ?at_index_head;
                   cbv beta iota).

Lemma Preload_start_index es img cap prv nxt :
  currentIndex (Preload.start es (page img cap prv nxt)) = 0.
Proof. destruct es, img, cap, prv, nxt; slider_run; reflexivity. Qed.

Lemma Animations_start_index es img cap prv nxt :
  currentIndex (Animations.start es (page img cap prv nxt)) = 0.
Proof. destruct es, img, cap, prv, nxt; slider_run; reflexivity. Qed.

(** Both copies attach their listeners exactly when the four elements are
    found. *)
Lemma Preload_start_listeners es img cap prv nxt :
  let w := Preload.start es (page img cap prv nxt) in
  prevListener w = negb (anyMissing (page img cap prv nxt)) /\
  nextListener w = negb (anyMissing (page img cap prv nxt)).
Proof.
  destruct es as [|e es], img, cap, prv, nxt; slider_run; split; reflexivity.
Qed.

Lemma Animations_start_listeners es img cap prv nxt :
  let w := Animations.start es (page img cap prv nxt) in
  prevListener w = negb (anyMissing (page img cap prv nxt)) /\
  nextListener w = negb (anyMissing (page img cap prv nxt)).
Proof.
  destruct es as [|e es], img, cap, prv, nxt; slider_run; split; reflexivity.
Qed.

(** ** The index stays inside the array *)

Lemma Preload_run_inRange es evs : forall w,
  inRange es (currentIndex w) -> inRange es (currentIndex (Preload.run es evs w)).
Proof.
  induction evs as [|ev evs IH]; intros w H; cbn [Preload.run fold_left].
  - exact H.
  - apply IH. rewrite Preload_step_index. apply indexAfter_inRange, H.
Qed.

Lemma Animations_run_inRange es evs : forall w,
  inRange es (currentIndex w) -> inRange es (currentIndex (Animations.run es evs w)).
Proof.
  induction evs as [|ev evs IH]; intros w H; cbn [Animations.run fold_left].
  - exact H.
  - apply IH. rewrite Animations_step_index. apply indexAfter_inRange, H.
Qed.

(** C1. For a non-empty array of [n] entries, whatever page the script is
    started on and whatever clicks (and load completions) follow, the index
    satisfies [0 <= currentIndex < n] in the state reached; as the sequence
    is arbitrary this covers the state after each click. It holds for the
    copy that pre-loads and for the copy of [animations.js]. *)
Theorem index_always_in_range :
  forall (es : list Entry) (img cap prv nxt : option Elem) (evs : list Event),
    es <> [] ->
    0 <= currentIndex (Preload.run es evs (Preload.start es (page img cap prv nxt)))
      < len es /\
    0 <= currentIndex (Animations.run es evs (Animations.start es (page img cap prv nxt)))
      < len es.
Proof.
  intros es img cap prv nxt evs Hne. apply len_pos in Hne. split.
  - apply Preload_run_inRange. rewrite Preload_start_index. unfold inRange. lia.
  - apply Animations_run_inRange. rewrite Animations_start_index. unfold inRange. lia.
Qed.

Lemma index_always_in_range_witness :
  0 <= currentIndex (Preload.run abc [ClickNext; ClickNext; ClickNext; ClickPrev]
                       (Preload.start abc fullPage)) < len abc /\
  0 <= currentIndex (Animations.run abc [ClickNext; ClickNext; ClickNext; ClickPrev]
                       (Animations.start abc fullPage)) < len abc.
Proof.
  apply (index_always_in_range abc (Some blank) (Some blank) (Some blank) (Some blank)).
  discriminate.
Defined.

(** ** The two updates are cyclic *)

Lemma goNext_index es w : currentIndex (goNext es w) = nextIndex es (currentIndex w).
Proof.
  destruct w as [img cap prv nxt i pl nl pd cs].
  unfold goNext. slider_unfold. split_match; reflexivity.
Qed.

Lemma goPrevious_index es w :
  currentIndex (goPrevious es w) = prevIndex es (currentIndex w).
Proof.
  destruct w as [img cap prv nxt i pl nl pd cs].
  unfold goPrevious. slider_unfold. split_match; reflexivity.
Qed.

Lemma iter_goNext_index es k : forall w,
  currentIndex (iter k (goNext es) w) = iter k (nextIndex es) (currentIndex w).
Proof.
  induction k as [|k IH]; intros w; cbn [iter]; [reflexivity|].
  rewrite IH, goNext_index. reflexivity.
Qed.

Lemma iter_goPrevious_index es k : forall w,
  currentIndex (iter k (goPrevious es) w) = iter k (prevIndex es) (currentIndex w).
Proof.
  induction k as [|k IH]; intros w; cbn [iter]; [reflexivity|].
  rewrite IH, goPrevious_index. reflexivity.
Qed.

(** C3. From any state whose index is a valid position of the array (so
    the array is not empty), [goNext] composed [n] times brings
    [currentIndex] back to where it started, and so does [goPrevious]
    composed [n] times, [n] being the number of entries. *)
Theorem navigation_is_cyclic :
  forall (es : list Entry) (w : World),
    0 <= currentIndex w < len es ->
    currentIndex (iter (List.length es) (goNext es) w) = currentIndex w /\
    currentIndex (iter (List.length es) (goPrevious es) w) = currentIndex w.
Proof.
  intros es w H. split.
  - rewrite iter_goNext_index, iter_nextIndex by exact H.
    fold (len es). replace (currentIndex w + len es) with (currentIndex w + 1 * len es) by lia.
    rewrite Z.mod_add by lia. apply Z.mod_small, H.
  - rewrite iter_goPrevious_index, iter_prevIndex by exact H.
    fold (len es).
    replace (currentIndex w + len es * (len es - 1))
      with (currentIndex w + (len es - 1) * len es) by lia.
    rewrite Z.mod_add by lia. apply Z.mod_small, H.
Qed.

Lemma navigation_is_cyclic_witness :
  let w := Preload.run images [ClickNext; ClickNext] (Preload.start images fullPage) in
  currentIndex w = 2 /\
  currentIndex (iter 6 (goNext images) w) = 2 /\
  currentIndex (iter 6 (goPrevious images) w) = 2.
Proof.
  split; [reflexivity|].
  apply (navigation_is_cyclic images
           (Preload.run images [ClickNext; ClickNext] (Preload.start images fullPage))).
  vm_compute. split; [discriminate | reflexivity].
Defined.

(** ** The two copies keep the same index *)

(** C10. On the same page and the same array, after the same sequence of
    events, the copy that pre-loads and the copy of [animations.js] hold
    the same [currentIndex]; load completions, which only the first copy
    knows, leave the index alone. *)
Theorem copies_agree_on_index :
  forall (es : list Entry) (img cap prv nxt : option Elem) (evs : list Event),
    currentIndex (Preload.run es evs (Preload.start es (page img cap prv nxt)))
    = currentIndex (Animations.run es evs (Animations.start es (page img cap prv nxt))).
Proof.
  intros es img cap prv nxt evs.
  pose proof (Preload_start_listeners es img cap prv nxt) as [Hp1 Hn1].
  pose proof (Animations_start_listeners es img cap prv nxt) as [Hp2 Hn2].
  pose proof (Preload_start_index es img cap prv nxt) as Hi1.
  pose proof (Animations_start_index es img cap prv nxt) as Hi2.
  cbv zeta in *.
  set (w1 := Preload.start es (page img cap prv nxt)) in *.
  set (w2 := Animations.start es (page img cap prv nxt)) in *.
  assert (Hi : currentIndex w1 = currentIndex w2) by congruence.
  assert (Hp : prevListener w1 = prevListener w2) by congruence.
  assert (Hn : nextListener w1 = nextListener w2) by congruence.
  clearbody w1 w2. clear Hp1 Hn1 Hp2 Hn2 Hi1 Hi2.
  revert w1 w2 Hi Hp Hn.
  induction evs as [|ev evs IH]; intros w1 w2 Hi Hp Hn;
    cbn [Preload.run Animations.run fold_left].
  - exact Hi.
  - apply IH.
    + rewrite Preload_step_index, Animations_step_index.
      destruct ev; cbn [indexAfter]; rewrite ?Hi, ?Hp, ?Hn; reflexivity.
    + destruct (Preload_step_listeners es w1 ev) as [-> _].
      destruct (Animations_step_listeners es w2 ev) as [-> _]. exact Hp.
    + destruct (Preload_step_listeners es w1 ev) as [_ ->].
      destruct (Animations_step_listeners es w2 ev) as [_ ->]. exact Hn.
Qed.

(** ** What every reachable state of the pre-loading copy satisfies *)

Lemma at_index_Some_inRange es i e : at_index es i = Some e -> inRange es i.
Proof.
  unfold at_index, inRange, len. intros H.
  destruct (i <? 0) eqn:E; [discriminate|]. apply Z.ltb_ge in E.
  assert (Z.to_nat i < List.length es)%nat by (apply nth_error_Some; congruence).
  lia.
Qed.

Lemma remove_nth_Forall {A} (P : A -> Prop) k : forall l,
  Forall P l -> Forall P (remove_nth k l).
Proof.
  induction k as [|k IH]; intros l H; destruct l as [|a l]; cbn; try exact H.
  - inversion H; assumption.
  - inversion H; subst. constructor; [assumption | apply IH; assumption].
Qed.

Lemma remove_nth_nonempty {A} k (l : list A) : remove_nth k l <> [] -> l <> [].
Proof. destruct l; [destruct k; cbn; congruence | discriminate]. Qed.
(** Closes the cases in which a listener is attached although an element
    it needs is missing. *)
Ltac absurd_presence :=
  solve [ exfalso;
          match goal with
          | H : true = true -> false = true |- _ => specialize (H eq_refl); discriminate
          | H : ?p <> [] -> false = true /\ _, N : ?p <> [] |- _ =>
              destruct (H N); discriminate
          end ].

Lemma Forall_requestOf_snoc es pd e i :
  Forall (requestOf es) pd -> at_index es i = Some e ->
  Forall (requestOf es) (pd ++ [mkRequest (src e) i]).
Proof.
  intros H E. apply Forall_app. split; [exact H|].
  constructor; [|constructor]. exists e. split; [exact E | reflexivity].
Qed.

Lemma Preload_click_consistent es w ev :
  isClick ev -> consistent es w -> consistent es (Preload.step es w ev).
Proof.
  destruct w as [img cap prv nxt i pl nl pd cs].
  unfold consistent, present.
  intros [-> | ->]; slider_unfold; intros (H1 & H2 & H3 & H4);
    split_match; subst;
    repeat (match goal with |- _ /\ _ => split | |- _ -> _ => intro end);
    try reflexivity; try assumption; try tauto; try absurd_presence;
    try (apply Forall_requestOf_snoc; assumption);
    try (eapply at_index_Some_inRange; eassumption);
    try (apply prevIndex_inRange; apply H3; assumption);
    try (apply nextIndex_inRange; apply H3; assumption);
    try (apply H3; assumption).
Qed.

Lemma Preload_load_consistent es w k ok :
  consistent es w -> consistent es (Preload.step es w (LoadDone k ok)).
Proof.
  destruct w as [img cap prv nxt i pl nl pd cs].
  unfold consistent, present.
  slider_unfold; intros (H1 & H2 & H3 & H4).
  destruct (nth_error pd k) eqn:N; cbv beta iota; [|tauto].
  assert (Hpd : pd <> []) by (destruct pd; [destruct k; discriminate | discriminate]).
  destruct (H3 Hpd) as [Hp Hr].
  destruct img as [im|]; [|discriminate]. destruct cap as [ca|]; [|discriminate].
  destruct (at_index_inRange es i Hr) as [e He].
  destruct ok; repeat (rewrite He; cbv beta iota);
    repeat (match goal with |- _ /\ _ => split | |- _ -> _ => intro end);
    try reflexivity; try assumption;
    apply remove_nth_Forall; assumption.
Qed.

Lemma Preload_step_consistent es w ev :
  consistent es w -> consistent es (Preload.step es w ev).
Proof.
  destruct ev.
  - apply Preload_click_consistent. left. reflexivity.
  - apply Preload_click_consistent. right. reflexivity.
  - apply Preload_load_consistent.
Qed.

Lemma Preload_run_consistent es evs : forall w,
  consistent es w -> consistent es (Preload.run es evs w).
Proof.
  induction evs as [|ev evs IH]; intros w H; cbn [Preload.run fold_left].
  - exact H.
  - apply IH, Preload_step_consistent, H.
Qed.

Lemma Preload_start_consistent es img cap prv nxt :
  consistent es (Preload.start es (page img cap prv nxt)).
Proof.
  unfold consistent, present.
  destruct es as [|e es], img, cap, prv, nxt; slider_run;
    repeat (match goal with |- _ /\ _ => split | |- _ -> _ => intro end);
    try reflexivity; try discriminate; try congruence;
    try (unfold inRange, len; cbn [List.length]; lia);
    try (constructor; [|constructor]; exists e; split; reflexivity);
    try constructor.
Qed.

Lemma Preload_reachable_consistent es img cap prv nxt evs :
  consistent es (Preload.run es evs (Preload.start es (page img cap prv nxt))).
Proof. apply Preload_run_consistent, Preload_start_consistent. Qed.

(** ** Completion of a pre-load *)

(** What the completion of a load in flight does in a state that
    satisfies [consistent]: no handler throws, [onload] commits the entry
    at the index the state holds, [onerror] commits the error triple. *)
Lemma Preload_load_commit es w k r ok :
  consistent es w -> nth_error (pending w) k = Some r ->
  exists e img cap,
    at_index es (currentIndex w) = Some e /\
    sliderImage w = Some img /\ imageCaption w = Some cap /\
    Preload.dispatch es (LoadDone k ok) w =
    Ok tt (mkWorld
             (Some (if ok
                    then set_opacity "1" (set_alt (caption e) (set_src (src e) img))
                    else set_opacity "1" (set_alt "Image failed to load" (set_src "" img))))
             (Some (set_textContent
                      (if ok then caption e else "Image failed to load") cap))
             (prevButton w) (nextButton w) (currentIndex w)
             (prevListener w) (nextListener w) (remove_nth k (pending w))
             (if ok then console w
              else (console w ++ [("Failed to load image: " ++ src e)%string])%list)).
Proof.
  destruct w as [img cap prv nxt i pl nl pd cs].
  unfold consistent, present. slider_unfold. intros (H1 & H2 & H3 & H4) N.
  assert (Hpd : pd <> []) by (destruct pd; [destruct k; discriminate | discriminate]).
  destruct (H3 Hpd) as [Hp Hr].
  destruct img as [im|]; [|discriminate]. destruct cap as [ca|]; [|discriminate].
  destruct (at_index_inRange es i Hr) as [e He].
  exists e, im, ca. rewrite N. cbv beta iota.
  destruct ok; repeat (rewrite He; cbv beta iota); repeat split; reflexivity.
Qed.

(** C4, as amended. In every state the pre-loading copy can reach, when a
    load in flight completes successfully the handler does not throw and
    commits, together, the entry at the value [currentIndex] has at that
    moment: its [src] to the picture's [src], its caption to the picture's
    [alt] and to the caption element, and opacity ['1']. When no click has
    moved the index since the load was requested, that entry is the
    requested one. *)
Theorem successful_load_commits_current_entry :
  forall (es : list Entry) (img cap prv nxt : option Elem)
         (evs : list Event) (k : nat) (r : Request),
    let w := Preload.run es evs (Preload.start es (page img cap prv nxt)) in
    nth_error (pending w) k = Some r ->
    let res := Preload.dispatch es (LoadDone k true) w in
    exists e,
      at_index es (currentIndex w) = Some e /\
      threw res = false /\
      option_map el_src (sliderImage (stateOf res)) = Some (src e) /\
      option_map el_alt (sliderImage (stateOf res)) = Some (caption e) /\
      option_map el_textContent (imageCaption (stateOf res)) = Some (caption e) /\
      option_map style_opacity (sliderImage (stateOf res)) = Some "1" /\
      (r_index r = currentIndex w ->
       at_index es (r_index r) = Some e /\ r_src r = src e).
Proof.
  intros es img cap prv nxt evs k r w N res.
  pose proof (Preload_reachable_consistent es img cap prv nxt evs) as C.
  fold w in C.
  destruct (Preload_load_commit es w k r true C N) as (e & im & ca & He & Hi & Hc & Hd).
  exists e. subst res. rewrite Hd. cbn.
  repeat split; try reflexivity; try assumption.
  - congruence.
  - destruct C as (_ & _ & _ & F).
    apply nth_error_In in N. rewrite Forall_forall in F.
    destruct (F r N) as (e' & He' & Hs). congruence.
Qed.

Lemma successful_load_commits_current_entry_witness :
  let w := Preload.run abc [ClickNext] (Preload.start abc fullPage) in
  nth_error (pending w) 1 = Some (mkRequest "b.png" 1) /\
  exists e,
    at_index abc (currentIndex w) = Some e /\
    threw (Preload.dispatch abc (LoadDone 1 true) w) = false /\
    option_map el_src (sliderImage (stateOf (Preload.dispatch abc (LoadDone 1 true) w)))
      = Some (src e) /\
    option_map el_alt (sliderImage (stateOf (Preload.dispatch abc (LoadDone 1 true) w)))
      = Some (caption e) /\
    option_map el_textContent
      (imageCaption (stateOf (Preload.dispatch abc (LoadDone 1 true) w)))
      = Some (caption e) /\
    option_map style_opacity
      (sliderImage (stateOf (Preload.dispatch abc (LoadDone 1 true) w))) = Some "1" /\
    (1 = currentIndex w -> at_index abc 1 = Some e /\ "b.png" = src e).
Proof.
  split; [reflexivity|].
  apply (successful_load_commits_current_entry abc
           (Some blank) (Some blank) (Some blank) (Some blank)
           [ClickNext] 1%nat (mkRequest "b.png" 1)).
  reflexivity.
Defined.

(** The claim C4 as worded fails: the page is started on the three
    entries, [next] is clicked before the first pre-load (of ["a.png"],
    entry 0) has completed, and then that pre-load succeeds; what is
    committed is entry 1. *)
Lemma successful_load_counterexample :
  let w := Preload.run abc [ClickNext] (Preload.start abc fullPage) in
  nth_error (pending w) 0 = Some (mkRequest "a.png" 0) /\
  at_index abc 0 = Some (mkEntry "a.png" "A") /\
  option_map el_src (sliderImage (Preload.step abc w (LoadDone 0 true))) = Some "b.png" /\
  ~ commitsRequestedEntry abc w 0.
Proof.
  repeat split; try reflexivity.
  intros H. specialize (H (mkRequest "a.png" 0) (mkEntry "a.png" "A") eq_refl eq_refl).
  destruct H as [H _]. vm_compute in H. discriminate.
Qed.

(** C5. In every state the pre-loading copy can reach, when a load in
    flight fails, whichever entry it was requested for, the handler does
    not throw and commits the empty [src], the [alt] "Image failed to
    load" and the caption "Image failed to load". *)
Theorem failed_load_commits_error_triple :
  forall (es : list Entry) (img cap prv nxt : option Elem)
         (evs : list Event) (k : nat) (r : Request),
    let w := Preload.run es evs (Preload.start es (page img cap prv nxt)) in
    nth_error (pending w) k = Some r ->
    let res := Preload.dispatch es (LoadDone k false) w in
    threw res = false /\
    option_map el_src (sliderImage (stateOf res)) = Some "" /\
    option_map el_alt (sliderImage (stateOf res)) = Some "Image failed to load" /\
    option_map el_textContent (imageCaption (stateOf res)) = Some "Image failed to load".
Proof.
  intros es img cap prv nxt evs k r w N res.
  pose proof (Preload_reachable_consistent es img cap prv nxt evs) as C.
  fold w in C.
  destruct (Preload_load_commit es w k r false C N) as (e & im & ca & He & Hi & Hc & Hd).
  subst res. rewrite Hd. cbn. repeat split; reflexivity.
Qed.

Lemma failed_load_commits_error_triple_witness :
  let w := Preload.run images [ClickNext; ClickPrev; ClickPrev]
             (Preload.start images fullPage) in
  nth_error (pending w) 2 = Some (mkRequest "assets/images/Main Menu Showcase.PNG" 0) /\
  threw (Preload.dispatch images (LoadDone 2 false) w) = false /\
  option_map el_src (sliderImage (stateOf (Preload.dispatch images (LoadDone 2 false) w)))
    = Some "" /\
  option_map el_alt (sliderImage (stateOf (Preload.dispatch images (LoadDone 2 false) w)))
    = Some "Image failed to load" /\
  option_map el_textContent
    (imageCaption (stateOf (Preload.dispatch images (LoadDone 2 false) w)))
    = Some "Image failed to load".
Proof.
  split; [reflexivity|].
  apply (failed_load_commits_error_triple images
           (Some blank) (Some blank) (Some blank) (Some blank)
           [ClickNext; ClickPrev; ClickPrev] 2%nat
           (mkRequest "assets/images/Main Menu Showcase.PNG" 0)).
  reflexivity.
Defined.

(** ** A page that lacks an element *)

(** Without listeners and without loads in flight no event does anything. *)
Lemma Preload_inert es w ev :
  prevListener w = false -> nextListener w = false -> pending w = [] ->
  Preload.dispatch es ev w = Ok tt w.
Proof.
  destruct w as [img cap prv nxt i pl nl pd cs]. cbn. intros -> -> ->.
  destruct ev as [| |k ok]; cbn; try reflexivity. destruct k; reflexivity.
Qed.

Lemma Animations_inert es w ev :
  prevListener w = false -> nextListener w = false ->
  Animations.dispatch es ev w = Ok tt w.
Proof.
  destruct w as [img cap prv nxt i pl nl pd cs]. cbn. intros -> ->.
  destruct ev; reflexivity.
Qed.

Lemma Preload_run_inert es evs : forall w,
  prevListener w = false -> nextListener w = false -> pending w = [] ->
  Preload.run es evs w = w.
Proof.
  induction evs as [|ev evs IH]; intros w Hp Hn Hq; cbn [Preload.run fold_left].
  - reflexivity.
  - unfold Preload.step. rewrite (Preload_inert es w ev Hp Hn Hq). cbn [stateOf].
    apply IH; assumption.
Qed.

Lemma Animations_run_inert es evs : forall w,
  prevListener w = false -> nextListener w = false ->
  Animations.run es evs w = w.
Proof.
  induction evs as [|ev evs IH]; intros w Hp Hn; cbn [Animations.run fold_left].
  - reflexivity.
  - unfold Animations.step. rewrite (Animations_inert es w ev Hp Hn). cbn [stateOf].
    apply IH; assumption.
Qed.

(** C9. When one of the four elements is missing, [initializeImageSlider]
    returns without throwing; the copy that pre-loads has only written two
    lines to the console and the copy of [animations.js] has changed
    nothing; no listener is attached, and no later event changes the state
    or throws. *)
Theorem missing_element_leaves_slider_inert :
  forall (es : list Entry) (img cap prv nxt : option Elem),
    let pg := page img cap prv nxt in
    anyMissing pg = true ->
    (threw (Preload.initializeImageSlider es pg) = false /\
     Preload.start es pg =
       with_console ["Image slider elements:"; "Image slider elements not found"] pg /\
     prevListener (Preload.start es pg) = false /\
     nextListener (Preload.start es pg) = false /\
     forall evs ev,
       Preload.dispatch es ev (Preload.run es evs (Preload.start es pg))
       = Ok tt (Preload.start es pg)) /\
    (threw (Animations.initializeImageSlider es pg) = false /\
     Animations.start es pg = pg /\
     forall evs ev,
       Animations.dispatch es ev (Animations.run es evs (Animations.start es pg))
       = Ok tt pg).
Proof.
  intros es img cap prv nxt pg H.
  assert (P : Preload.initializeImageSlider es pg =
              Ok tt (with_console ["Image slider elements:";
                                   "Image slider elements not found"] pg)).
  { subst pg. destruct img, cap, prv, nxt; try discriminate H; reflexivity. }
  assert (A : Animations.initializeImageSlider es pg = Ok tt pg).
  { subst pg. destruct img, cap, prv, nxt; try discriminate H; reflexivity. }
  unfold Preload.start, Animations.start. rewrite P, A. cbn [threw stateOf].
  repeat split; try reflexivity.
  - intros evs ev. rewrite Preload_run_inert by reflexivity.
    apply Preload_inert; reflexivity.
  - intros evs ev. rewrite Animations_run_inert by reflexivity.
    apply Animations_inert; reflexivity.
Qed.

Lemma missing_element_leaves_slider_inert_witness :
  let pg := page (Some blank) None (Some blank) (Some blank) in
  anyMissing pg = true /\
  (threw (Preload.initializeImageSlider images pg) = false /\
   Preload.start images pg =
     with_console ["Image slider elements:"; "Image slider elements not found"] pg /\
   prevListener (Preload.start images pg) = false /\
   nextListener (Preload.start images pg) = false /\
   forall evs ev,
     Preload.dispatch images ev (Preload.run images evs (Preload.start images pg))
     = Ok tt (Preload.start images pg)) /\
  (threw (Animations.initializeImageSlider images pg) = false /\
   Animations.start images pg = pg /\
   forall evs ev,
     Animations.dispatch images ev (Animations.run images evs (Animations.start images pg))
     = Ok tt pg).
Proof.
  split; [reflexivity|].
  apply (missing_element_leaves_slider_inert images (Some blank) None (Some blank) (Some blank)).
  reflexivity.
Defined.

(** ** An empty array *)



(** The end-to-end scenario of the specification, on both copies; in the
    first every pre-load succeeds before the next click. *)
Example end_to_end_preload :
  let w0 := Preload.start abc fullPage in
  let w1 := Preload.run abc [LoadDone 0 true; ClickNext; LoadDone 0 true] w0 in
  let w2 := Preload.run abc [ClickNext; LoadDone 0 true] w1 in
  let w3 := Preload.run abc [ClickNext; LoadDone 0 true] w2 in
  let w4 := Preload.run abc [ClickPrev; LoadDone 0 true] w3 in
  let shows (w : World) := (currentIndex w, option_map el_textContent (imageCaption w)) in
  shows w1 = (1, Some "B") /\ shows w2 = (2, Some "C") /\
  shows w3 = (0, Some "A") /\ shows w4 = (2, Some "C").
Proof. repeat split; reflexivity. Qed.

Example end_to_end_animations :
  let w0 := Animations.start abc fullPage in
  let w1 := Animations.run abc [ClickNext] w0 in
  let w2 := Animations.run abc [ClickNext] w1 in
  let w3 := Animations.run abc [ClickNext] w2 in
  let w4 := Animations.run abc [ClickPrev] w3 in
  let shows (w : World) := (currentIndex w, option_map el_textContent (imageCaption w)) in
  shows w1 = (1, Some "B") /\ shows w2 = (2, Some "C") /\
  shows w3 = (0, Some "A") /\ shows w4 = (2, Some "C").
Proof. repeat split; reflexivity. Qed.

(** ** The viewer: what stays fixed *)

(** What every listener an event reaches keeps, the event keeps. *)
Lemma listeners_preserve (P : Viewer.World -> Prop) hs :
  (forall h, In h hs -> forall w, P w -> P (stateOf (h w))) ->
  forall w, P w -> P (stateOf (Viewer.listeners hs w)).
Proof.
  induction hs as [|h hs IH]; intros H w Pw; cbn [Viewer.listeners].
  - exact Pw.
  - assert (Ph : P (stateOf (h w))) by (apply H; [left; reflexivity | exact Pw]).
    assert (IH' : forall w', P w' -> P (stateOf (Viewer.listeners hs w'))).
    { apply IH. intros h' I. apply H. right. exact I. }
    destruct (h w) as [a w'|e w']; cbn [stateOf] in Ph.
    + apply IH', Ph.
    + specialize (IH' w' Ph). destruct (Viewer.listeners hs w'); exact IH'.
Qed.

(** The only handlers a click in the document reaches are click handlers
    of pictures. *)
Lemma onclickOf_In w route h :
  In h (flat_map (Viewer.onclickOf w) route) ->
  exists this line, h = Viewer.imgOnclick this line.
Proof.
  intros I. apply in_flat_map in I. destruct I as ((q & line) & _ & I).
  unfold Viewer.onclickOf in I. destruct (Viewer.registered w q); [|destruct I].
  destruct line as [|this rest]; [destruct I|].
  destruct I as [<- | []]. exists this, (this :: rest). reflexivity.
Qed.

Lemma imgOnclick_frame this line w :
  frame (stateOf (Viewer.imgOnclick this line w)) = frame w.
Proof.
  destruct w as [doc m mi ct cb ov cl ch mh kl].
  viewer_unfold. split_match; reflexivity.
Qed.

Lemma Viewer_step_frame w ev : frame (Viewer.step w ev) = frame w.
Proof.
  destruct ev as [p|t|key].
  - unfold Viewer.step, Viewer.dispatch.
    destruct (Viewer.propagation (Viewer.document w) [] [] p) as [route|]; [|reflexivity].
    apply (listeners_preserve (fun w' => frame w' = frame w)); [|reflexivity].
    intros h I w' F. destruct (onclickOf_In w route h I) as (this & line & ->).
    rewrite imgOnclick_frame. exact F.
  - destruct w as [doc m mi ct cb ov cl ch mh kl].
    destruct t, ch, mh, m; reflexivity.
  - destruct w as [doc m mi ct cb ov cl ch mh kl].
    viewer_unfold. split_match; reflexivity.
Qed.

Lemma Viewer_run_frame evs : forall w, frame (Viewer.run evs w) = frame w.
Proof.
  induction evs as [|ev evs IH]; intros w; cbn [Viewer.run fold_left].
  - reflexivity.
  - unfold Viewer.run in IH. rewrite IH. apply Viewer_step_frame.
Qed.

(** The script installs a handler only on an element it found, and the
    [keydown] listener only after the two [onclick] of the modal. *)
Lemma Viewer_start_frame doc m mi ct cb ov :
  frame (Viewer.start (Viewer.page doc m mi ct cb ov)) =
  (doc, Viewer.querySelectorAll doc,
   (found cb, found cb && found m, found cb && found m),
   (found m, found mi, found ct, found cb)).
Proof. destruct m, mi, ct, cb; reflexivity. Qed.

Lemma Viewer_reachable_frame doc m mi ct cb ov evs :
  frame (Viewer.run evs (Viewer.start (Viewer.page doc m mi ct cb ov))) =
  (doc, Viewer.querySelectorAll doc,
   (found cb, found cb && found m, found cb && found m),
   (found m, found mi, found ct, found cb)).
Proof. rewrite Viewer_run_frame. apply Viewer_start_frame. Qed.

(** ** Closing the modal *)

(** C7. In every state reached from any page, pressing Escape while the
    modal is not shown returns without throwing and leaves the whole state
    as it was. On a page that has the modal and its close control, pressing
    Escape while the modal is shown returns without throwing, hides the
    modal and lets the page scroll again. *)
Theorem escape_key :
  (forall (doc : Viewer.Node) (m mi ct cb : option Elem) (ov : string)
          (evs : list Viewer.Event),
      let w := Viewer.run evs (Viewer.start (Viewer.page doc m mi ct cb ov)) in
      Viewer.visible w = false ->
      Viewer.dispatch (Viewer.KeyDown "Escape") w = Ok tt w) /\
  (forall (doc : Viewer.Node) (m cb : Elem) (mi ct : option Elem) (ov : string)
          (evs : list Viewer.Event),
      let w := Viewer.run evs
                 (Viewer.start (Viewer.page doc (Some m) mi ct (Some cb) ov)) in
      Viewer.visible w = true ->
      let res := Viewer.dispatch (Viewer.KeyDown "Escape") w in
      threw res = false /\
      Viewer.visible (stateOf res) = false /\
      Viewer.overflow (stateOf res) = "auto").
Proof.
  split.
  - intros doc m mi ct cb ov0 evs w V.
    pose proof (Viewer_reachable_frame doc m mi ct cb ov0 evs) as F. fold w in F.
    destruct w as [doc' m' mi' ct' cb' ov cl ch mh kl].
    viewer_unfold. injection F as _ _ _ _ Hkl Hm _ _ _.
    destruct kl; [|reflexivity].
    destruct m' as [e|].
    + cbn. cbn in V. rewrite V. reflexivity.
    + destruct m, cb; discriminate.
  - intros doc m cb mi ct ov0 evs w V res. subst res.
    pose proof (Viewer_reachable_frame doc (Some m) mi ct (Some cb) ov0 evs) as F.
    fold w in F.
    destruct w as [doc' m' mi' ct' cb' ov cl ch mh kl].
    viewer_unfold. injection F as _ _ _ _ Hkl Hm _ _ _. subst kl.
    destruct m' as [e|]; [|discriminate].
    cbn. cbn in V. rewrite V. cbn. repeat split; reflexivity.
Qed.

Lemma escape_key_witness :
  (let w := Viewer.run [] (Viewer.start Viewer.samplePage) in
   Viewer.visible w = false /\
   Viewer.dispatch (Viewer.KeyDown "Escape") w = Ok tt w) /\
  (let w := Viewer.run [Viewer.ClickImage [1%nat]] (Viewer.start Viewer.samplePage) in
   Viewer.visible w = true /\
   threw (Viewer.dispatch (Viewer.KeyDown "Escape") w) = false /\
   Viewer.visible (stateOf (Viewer.dispatch (Viewer.KeyDown "Escape") w)) = false /\
   Viewer.overflow (stateOf (Viewer.dispatch (Viewer.KeyDown "Escape") w)) = "auto").
Proof.
  split.
  - split; [reflexivity|].
    apply (proj1 escape_key Viewer.sampleDocument
             (Some blank) (Some blank) (Some blank) (Some blank) "" []).
    reflexivity.
  - split; [reflexivity|].
    apply (proj2 escape_key Viewer.sampleDocument blank blank (Some blank) (Some blank) ""
             [Viewer.ClickImage [1%nat]]).
    reflexivity.
Defined.

(** C8. On a page that has the modal and its close control, in every
    state reached in which the modal is shown: a click that lands on the
    modal element itself returns without throwing, hides the modal and lets
    the page scroll again; a click that lands on the picture inside the
    modal returns without throwing and changes nothing, so the modal stays
    shown. *)
Theorem backdrop_click_closes_image_click_does_not :
  forall (doc : Viewer.Node) (m cb : Elem) (mi ct : option Elem) (ov : string)
         (evs : list Viewer.Event),
    let w := Viewer.run evs
               (Viewer.start (Viewer.page doc (Some m) mi ct (Some cb) ov)) in
    Viewer.visible w = true ->
    (let res := Viewer.dispatch (Viewer.ClickModal Viewer.OnBackdrop) w in
     threw res = false /\
     Viewer.visible (stateOf res) = false /\
     Viewer.overflow (stateOf res) = "auto") /\
    Viewer.dispatch (Viewer.ClickModal Viewer.OnModalImage) w = Ok tt w /\
    Viewer.visible (Viewer.step w (Viewer.ClickModal Viewer.OnModalImage)) = true.
Proof.
  intros doc m cb mi ct ov0 evs w V.
  pose proof (Viewer_reachable_frame doc (Some m) mi ct (Some cb) ov0 evs) as F.
  fold w in F.
  assert (I : Viewer.dispatch (Viewer.ClickModal Viewer.OnModalImage) w = Ok tt w).
  { destruct w as [doc' m' mi' ct' cb' ov cl ch mh kl].
    viewer_unfold. injection F as _ _ _ Hmh _ _ _ _ _. subst mh. reflexivity. }
  split; [|split; [exact I | unfold Viewer.step; rewrite I; exact V]].
  destruct w as [doc' m' mi' ct' cb' ov cl ch mh kl].
  viewer_unfold. injection F as _ _ _ Hmh _ Hm _ _ _. subst mh.
  destruct m' as [e|]; [|discriminate].
  cbn. repeat split; reflexivity.
Qed.

Lemma backdrop_click_closes_image_click_does_not_witness :
  let w := Viewer.run [Viewer.ClickImage [3%nat; 0%nat]] (Viewer.start Viewer.samplePage) in
  Viewer.visible w = true /\
  (threw (Viewer.dispatch (Viewer.ClickModal Viewer.OnBackdrop) w) = false /\
   Viewer.visible (stateOf (Viewer.dispatch (Viewer.ClickModal Viewer.OnBackdrop) w)) = false /\
   Viewer.overflow (stateOf (Viewer.dispatch (Viewer.ClickModal Viewer.OnBackdrop) w)) = "auto") /\
  Viewer.dispatch (Viewer.ClickModal Viewer.OnModalImage) w = Ok tt w /\
  Viewer.visible (Viewer.step w (Viewer.ClickModal Viewer.OnModalImage)) = true.
Proof.
  split; [reflexivity|].
  apply (backdrop_click_closes_image_click_does_not Viewer.sampleDocument
           blank blank (Some blank) (Some blank) "" [Viewer.ClickImage [3%nat; 0%nat]]).
  reflexivity.
Defined.

(** ** Opening the viewer *)




(** *** The route of a click *)



(** *** What the handlers on the route leave *)









(** *** The caption the handler computes is the caption specified *)














(** The claim C6 as worded fails where a clickable picture sits inside a
    clickable container: the click bubbles, the handler of the container
    runs last, and the caption left is the one computed for the container,
    which has no [alt], not the [alt] of the picture. *)
Lemma caption_of_clicked_image_counterexample :
  let w := Viewer.start Viewer.nestedPage in
  Viewer.registered w [0%nat; 0%nat] = true /\
  captionSpec Viewer.nestedDocument [0%nat; 0%nat] = "X" /\
  option_map el_textContent
    (Viewer.captionText (Viewer.step w (Viewer.ClickImage [0%nat; 0%nat]))) = Some "" /\
  option_map el_textContent
    (Viewer.captionText (Viewer.step w (Viewer.ClickImage [0%nat; 0%nat])))
  <> Some (captionSpec Viewer.nestedDocument [0%nat; 0%nat]).
Proof. repeat split; try reflexivity. discriminate. Qed.

(** The three cases on the sample document: a picture inside a showcase
    item shows the caption of the item, a picture with an empty [alt] and
    an element without [alt] show the empty string, the picture of the
    slider shows its [alt]. *)
Example captions_on_sample :
  let w := Viewer.start Viewer.samplePage in
  let shown (p : Viewer.Path) :=
    option_map el_textContent (Viewer.captionText (Viewer.step w (Viewer.ClickImage p))) in
  shown [0%nat; 0%nat] = Some "Caption one" /\
  shown [1%nat] = Some "" /\
  shown [2%nat] = Some "" /\
  shown [3%nat; 0%nat] = Some "A" /\
  Viewer.step w (Viewer.ClickImage [4%nat]) = w.
Proof. repeat split; reflexivity. Qed.

(** * Further properties of the slider *)

Lemma prevIndex_nextIndex es i : inRange es i -> prevIndex es (nextIndex es i) = i.
Proof.
  unfold inRange, prevIndex, nextIndex. intros H.
  destruct (i <? len es - 1) eqn:E; [apply Z.ltb_lt in E | apply Z.ltb_ge in E].
  - destruct (i + 1 >? 0) eqn:G; [lia|]. rewrite Z.gtb_ltb in G. apply Z.ltb_ge in G. lia.
  - cbn. lia.
Qed.

Lemma nextIndex_prevIndex es i : inRange es i -> nextIndex es (prevIndex es i) = i.
Proof.
  unfold inRange, prevIndex, nextIndex. intros H.
  destruct (i >? 0) eqn:G; [apply Z.gtb_lt in G | rewrite Z.gtb_ltb in G; apply Z.ltb_ge in G].
  - destruct (i - 1 <? len es - 1) eqn:E; [lia|]. apply Z.ltb_ge in E. lia.
  - rewrite Z.ltb_irrefl. lia.
Qed.

(** X1. From a state whose index is a valid position, [previous] undoes
    [next] and [next] undoes [previous]: the index is back where it was. *)
Theorem next_and_previous_are_inverse :
  forall (es : list Entry) (w : World),
    0 <= currentIndex w < len es ->
    currentIndex (goPrevious es (goNext es w)) = currentIndex w /\
    currentIndex (goNext es (goPrevious es w)) = currentIndex w.
Proof.
  intros es w H. rewrite goPrevious_index, goNext_index, goNext_index, goPrevious_index.
  split; [apply prevIndex_nextIndex | apply nextIndex_prevIndex]; exact H.
Qed.

Lemma next_and_previous_are_inverse_witness :
  let w := Preload.run images [ClickPrev] (Preload.start images fullPage) in
  currentIndex w = 5 /\
  currentIndex (goPrevious images (goNext images w)) = 5 /\
  currentIndex (goNext images (goPrevious images w)) = 5.
Proof.
  split; [reflexivity|].
  apply (next_and_previous_are_inverse images
           (Preload.run images [ClickPrev] (Preload.start images fullPage))).
  vm_compute. split; [discriminate | reflexivity].
Defined.

(** X2. [initializeImageSlider] never throws, whatever elements the page
    has and whatever the array holds, in both copies. *)
Theorem initialize_never_throws :
  forall (es : list Entry) (img cap prv nxt : option Elem),
    threw (Preload.initializeImageSlider es (page img cap prv nxt)) = false /\
    threw (Animations.initializeImageSlider es (page img cap prv nxt)) = false.
Proof.
  intros es img cap prv nxt.
  destruct es as [|e es], img, cap, prv, nxt; slider_run; split; reflexivity.
Qed.

Lemma Animations_step_attached es w ev :
  attachedWhenPresent w -> attachedWhenPresent (Animations.step es w ev).
Proof.
  destruct w as [img cap prv nxt i pl nl pd cs].
  unfold attachedWhenPresent, present.
  destruct ev; slider_unfold; intros (H1 & H2);
    split_match; subst; split; intros; try reflexivity; try tauto; try absurd_presence.
Qed.

Lemma Animations_run_attached es evs : forall w,
  attachedWhenPresent w -> attachedWhenPresent (Animations.run es evs w).
Proof.
  induction evs as [|ev evs IH]; intros w H; cbn [Animations.run fold_left].
  - exact H.
  - apply IH, Animations_step_attached, H.
Qed.

Lemma Animations_start_attached es img cap prv nxt :
  attachedWhenPresent (Animations.start es (page img cap prv nxt)).
Proof.
  unfold attachedWhenPresent, present.
  destruct es as [|e es], img, cap, prv, nxt; slider_run; split; intros;
    try reflexivity; try discriminate.
Qed.

Lemma Preload_event_ok es w ev :
  consistent es w -> inRange es (currentIndex w) ->
  threw (Preload.dispatch es ev w) = false.
Proof.
  intros C R. destruct ev as [| |k ok].
  - destruct (at_index_inRange es _ (prevIndex_inRange es _ R)) as [e He].
    destruct w as [img cap prv nxt i pl nl pd cs].
    unfold consistent, present in C. slider_unfold. destruct C as (H1 & _).
    destruct pl; [|reflexivity]. specialize (H1 eq_refl).
    destruct img; [|discriminate]. cbv beta iota. rewrite He. reflexivity.
  - destruct (at_index_inRange es _ (nextIndex_inRange es _ R)) as [e He].
    destruct w as [img cap prv nxt i pl nl pd cs].
    unfold consistent, present in C. slider_unfold. destruct C as (_ & H2 & _).
    destruct nl; [|reflexivity]. specialize (H2 eq_refl).
    destruct img; [|discriminate]. cbv beta iota. rewrite He. reflexivity.
  - destruct (nth_error (pending w) k) as [r|] eqn:N.
    + destruct (Preload_load_commit es w k r ok C N) as (e & im & ca & _ & _ & _ & D).
      rewrite D. reflexivity.
    + unfold Preload.dispatch. rewrite N. reflexivity.
Qed.

Lemma Animations_event_ok es w ev :
  attachedWhenPresent w -> inRange es (currentIndex w) ->
  threw (Animations.dispatch es ev w) = false.
Proof.
  intros C R. destruct ev as [| |k ok]; [| |reflexivity].
  - destruct (at_index_inRange es _ (prevIndex_inRange es _ R)) as [e He].
    destruct w as [img cap prv nxt i pl nl pd cs].
    unfold attachedWhenPresent, present in C. slider_unfold. destruct C as (H1 & _).
    destruct pl; [|reflexivity]. specialize (H1 eq_refl).
    destruct img; [|discriminate]. destruct cap; [|discriminate].
    repeat (rewrite He; cbv beta iota). reflexivity.
  - destruct (at_index_inRange es _ (nextIndex_inRange es _ R)) as [e He].
    destruct w as [img cap prv nxt i pl nl pd cs].
    unfold attachedWhenPresent, present in C. slider_unfold. destruct C as (_ & H2).
    destruct nl; [|reflexivity]. specialize (H2 eq_refl).
    destruct img; [|discriminate]. destruct cap; [|discriminate].
    repeat (rewrite He; cbv beta iota). reflexivity.
Qed.

(** X3. With a non-empty array no handler of the slider ever throws: in
    every state reached from any page, a click on either button and the
    completion of a load, successful or not, return normally, in both
    copies. *)
Theorem no_handler_throws_on_nonempty_array :
  forall (es : list Entry) (img cap prv nxt : option Elem)
         (evs : list Event) (ev : Event),
    es <> [] ->
    threw (Preload.dispatch es ev
             (Preload.run es evs (Preload.start es (page img cap prv nxt)))) = false /\
    threw (Animations.dispatch es ev
             (Animations.run es evs (Animations.start es (page img cap prv nxt)))) = false.
Proof.
  intros es img cap prv nxt evs ev Hne. apply len_pos in Hne. split.
  - apply Preload_event_ok.
    + apply Preload_reachable_consistent.
    + apply Preload_run_inRange. rewrite Preload_start_index. unfold inRange. lia.
  - apply Animations_event_ok.
    + apply Animations_run_attached, Animations_start_attached.
    + apply Animations_run_inRange. rewrite Animations_start_index. unfold inRange. lia.
Qed.

Lemma no_handler_throws_on_nonempty_array_witness :
  threw (Preload.dispatch images (LoadDone 1 false)
           (Preload.run images [ClickPrev; ClickNext]
              (Preload.start images fullPage))) = false /\
  threw (Animations.dispatch images (LoadDone 1 false)
           (Animations.run images [ClickPrev; ClickNext]
              (Animations.start images fullPage))) = false.
Proof.
  apply (no_handler_throws_on_nonempty_array images
           (Some blank) (Some blank) (Some blank) (Some blank)
           [ClickPrev; ClickNext] (LoadDone 1 false)).
  discriminate.
Defined.

Lemma Animations_step_inSync es w ev :
  inSync es w -> inSync es (Animations.step es w ev).
Proof.
  intros (P & e & He & D).
  assert (R : inRange es (currentIndex w)) by (eapply at_index_Some_inRange; exact He).
  destruct ev as [| |k ok]; [| |split; [exact P | exists e; split; assumption]].
  - destruct (at_index_inRange es _ (prevIndex_inRange es _ R)) as [e' He'].
    destruct w as [img cap prv nxt i pl nl pd cs].
    unfold inSync, displaysEntry, displays, present in *. slider_unfold.
    destruct img as [im|]; [|discriminate]. destruct cap as [ca|]; [|discriminate].
    destruct pl; cbv beta iota.
    + repeat (rewrite He'; cbv beta iota).
      split; [reflexivity|]. exists e'. repeat split; try reflexivity; try exact He'.
    + split; [reflexivity|]. exists e. split; assumption.
  - destruct (at_index_inRange es _ (nextIndex_inRange es _ R)) as [e' He'].
    destruct w as [img cap prv nxt i pl nl pd cs].
    unfold inSync, displaysEntry, displays, present in *. slider_unfold.
    destruct img as [im|]; [|discriminate]. destruct cap as [ca|]; [|discriminate].
    destruct nl; cbv beta iota.
    + repeat (rewrite He'; cbv beta iota).
      split; [reflexivity|]. exists e'. repeat split; try reflexivity; try exact He'.
    + split; [reflexivity|]. exists e. split; assumption.
Qed.

Lemma Animations_run_inSync es evs : forall w,
  inSync es w -> inSync es (Animations.run es evs w).
Proof.
  induction evs as [|ev evs IH]; intros w H; cbn [Animations.run fold_left].
  - exact H.
  - apply IH, Animations_step_inSync, H.
Qed.

(** X4. In the copy of [animations.js], on a page that has the four
    elements and with a non-empty array, the picture is never out of step
    with the index: in every state reached, the [src] and [alt] of the
    picture and the text of the caption are those of the entry at
    [currentIndex]. *)
Theorem animations_display_follows_index :
  forall (es : list Entry) (img cap prv nxt : Elem) (evs : list Event),
    es <> [] ->
    let w := Animations.run es evs
               (Animations.start es (page (Some img) (Some cap) (Some prv) (Some nxt))) in
    exists e, at_index es (currentIndex w) = Some e /\ displaysEntry w e.
Proof.
  intros es img cap prv nxt evs Hne w. subst w.
  apply Animations_run_inSync.
  destruct es as [|e es]; [congruence|].
  unfold inSync, displaysEntry, displays, present. slider_run.
  split; [reflexivity|]. exists e. repeat split; reflexivity.
Qed.

Lemma animations_display_follows_index_witness :
  let w := Animations.run abc [ClickPrev; ClickPrev]
             (Animations.start abc (page (Some blank) (Some blank) (Some blank) (Some blank))) in
  exists e, at_index abc (currentIndex w) = Some e /\ displaysEntry w e.
Proof.
  apply (animations_display_follows_index abc blank blank blank blank [ClickPrev; ClickPrev]).
  discriminate.
Defined.

Lemma at_index_In es i e : at_index es i = Some e -> In e es.
Proof.
  unfold at_index. destruct (i <? 0); [discriminate|]. apply nth_error_In.
Qed.

(** A click leaves what is shown as it is: the pre-loading copy only dims
    the picture. *)
Lemma Preload_click_displays es w ev s a t :
  isClick ev -> displays w s a t -> displays (Preload.step es w ev) s a t.
Proof.
  destruct w as [img cap prv nxt i pl nl pd cs]. unfold displays.
  intros [-> | ->]; slider_unfold; intros (H1 & H2 & H3);
    split_match; subst; repeat split; assumption.
Qed.

Lemma Preload_step_coherent es w ev :
  consistent es w -> coherent es w -> coherent es (Preload.step es w ev).
Proof.
  intros C H. destruct ev as [| |k ok].
  - destruct H as [(e & I & D) | D]; [left; exists e; split; [exact I|] | right];
      apply Preload_click_displays; try exact D; left; reflexivity.
  - destruct H as [(e & I & D) | D]; [left; exists e; split; [exact I|] | right];
      apply Preload_click_displays; try exact D; right; reflexivity.
  - unfold Preload.step.
    destruct (nth_error (pending w) k) as [r|] eqn:N.
    + destruct (Preload_load_commit es w k r ok C N) as (e & im & ca & He & _ & _ & D).
      rewrite D. destruct ok.
      * left. exists e. split; [eapply at_index_In; exact He|].
        repeat split; reflexivity.
      * right. repeat split; reflexivity.
    + unfold Preload.dispatch. rewrite N. exact H.
Qed.

(** X5. In the copy that pre-loads, on a page that has the four elements
    and with a non-empty array, the [src] and [alt] of the picture and the
    text of the caption always belong together: in every state reached
    they are those of one entry of the array, or the three values of a
    failed load. *)
Theorem preload_display_is_coherent :
  forall (es : list Entry) (img cap prv nxt : Elem) (evs : list Event),
    es <> [] ->
    coherent es (Preload.run es evs
                   (Preload.start es (page (Some img) (Some cap) (Some prv) (Some nxt)))).
Proof.
  intros es img cap prv nxt evs Hne.
  pose proof (Preload_start_consistent es (Some img) (Some cap) (Some prv) (Some nxt)) as C.
  assert (H : coherent es (Preload.start es (page (Some img) (Some cap) (Some prv) (Some nxt)))).
  { destruct es as [|e es]; [congruence|]. left. exists e. split; [left; reflexivity|].
    unfold displaysEntry, displays. slider_run. repeat split; reflexivity. }
  revert C H. generalize (Preload.start es (page (Some img) (Some cap) (Some prv) (Some nxt))).
  induction evs as [|ev evs IH]; intros w C H; cbn [Preload.run fold_left].
  - exact H.
  - apply IH; [apply Preload_step_consistent, C | apply Preload_step_coherent; assumption].
Qed.

Lemma preload_display_is_coherent_witness :
  coherent abc (Preload.run abc [ClickNext; LoadDone 0 false; LoadDone 0 true]
                  (Preload.start abc (page (Some blank) (Some blank) (Some blank) (Some blank)))).
Proof.
  apply (preload_display_is_coherent abc blank blank blank blank
           [ClickNext; LoadDone 0 false; LoadDone 0 true]).
  discriminate.
Defined.

(** X6. In every state the pre-loading copy can reach, each load in
    flight is the pre-load of an entry of the array: the index it was
    created for is a valid position and its address is the [src] of the
    entry there. *)
Theorem loads_in_flight_are_entries :
  forall (es : list Entry) (img cap prv nxt : option Elem)
         (evs : list Event) (r : Request),
    In r (pending (Preload.run es evs (Preload.start es (page img cap prv nxt)))) ->
    exists e, at_index es (r_index r) = Some e /\ r_src r = src e.
Proof.
  intros es img cap prv nxt evs r I.
  destruct (Preload_reachable_consistent es img cap prv nxt evs) as (_ & _ & _ & F).
  rewrite Forall_forall in F. exact (F r I).
Qed.

Lemma loads_in_flight_are_entries_witness :
  exists e, at_index abc 2 = Some e /\ "c.png" = src e.
Proof.
  apply (loads_in_flight_are_entries abc (Some blank) (Some blank) (Some blank) (Some blank)
           [ClickPrev; ClickNext] (mkRequest "c.png" 2)).
  vm_compute. right. left. reflexivity.
Defined.

Lemma Preload_step_layout es w ev : layout (Preload.step es w ev) = layout w.
Proof.
  destruct w as [img cap prv nxt i pl nl pd cs]. unfold layout.
  destruct ev; slider_unfold; split_match; subst; reflexivity.
Qed.

Lemma Animations_step_layout es w ev : layout (Animations.step es w ev) = layout w.
Proof.
  destruct w as [img cap prv nxt i pl nl pd cs]. unfold layout.
  destruct ev; slider_unfold; split_match; subst; reflexivity.
Qed.

(** X7. Once [initializeImageSlider] has returned, no click and no load
    ever touches the two buttons or the inline [display] of the picture
    and of the caption: what the script hid stays hidden and what it left
    shown stays shown, in both copies. *)
Theorem events_keep_layout :
  forall (es : list Entry) (img cap prv nxt : option Elem) (evs : list Event),
    layout (Preload.run es evs (Preload.start es (page img cap prv nxt)))
    = layout (Preload.start es (page img cap prv nxt)) /\
    layout (Animations.run es evs (Animations.start es (page img cap prv nxt)))
    = layout (Animations.start es (page img cap prv nxt)).
Proof.
  intros es img cap prv nxt evs. split.
  - generalize (Preload.start es (page img cap prv nxt)).
    induction evs as [|ev evs IH]; intros w; cbn [Preload.run fold_left]; [reflexivity|].
    unfold Preload.run in IH. rewrite IH. apply Preload_step_layout.
  - generalize (Animations.start es (page img cap prv nxt)).
    induction evs as [|ev evs IH]; intros w; cbn [Animations.run fold_left]; [reflexivity|].
    unfold Animations.run in IH. rewrite IH. apply Animations_step_layout.
Qed.

(** ** Clicks on an empty array *)

Lemma at_index_nil i : at_index [] i = None.
Proof. unfold at_index. destruct (i <? 0); [reflexivity|]. destruct (Z.to_nat i); reflexivity. Qed.

Lemma Preload_click_disabled img cap w ev :
  isClick ev -> disabled img cap w ->
  threw (Preload.dispatch [] ev w) = true /\ disabled img cap (Preload.step [] w ev).
Proof.
  destruct w as [si ic prv nxt i pl nl pd cs]. unfold disabled.
  intros [-> | ->]; slider_unfold;
    intros (Hi & -> & -> & -> & (im & -> & Hs & Ha & Hd) & ->); cbv beta iota;
    rewrite at_index_nil; cbv beta iota;
    (split; [reflexivity|]);
    (split; [destruct Hi as [-> | ->]; cbn; auto|]);
    repeat split; try reflexivity; eexists; repeat split; assumption.
Qed.

Lemma Animations_click_disabled img cap w ev :
  isClick ev -> disabled img cap w ->
  threw (Animations.dispatch [] ev w) = true /\ disabled img cap (Animations.step [] w ev).
Proof.
  destruct w as [si ic prv nxt i pl nl pd cs]. unfold disabled.
  intros [-> | ->]; slider_unfold;
    intros (Hi & -> & -> & -> & (im & -> & Hs & Ha & Hd) & ->); cbv beta iota;
    rewrite at_index_nil; cbv beta iota;
    (split; [reflexivity|]);
    (split; [destruct Hi as [-> | ->]; cbn; auto|]);
    repeat split; try reflexivity; eexists; repeat split; assumption.
Qed.

Lemma Preload_load_disabled img cap w k ok :
  disabled img cap w -> Preload.step [] w (LoadDone k ok) = w.
Proof.
  destruct w as [si ic prv nxt i pl nl pd cs]. unfold disabled. cbn.
  intros (_ & -> & _). destruct k; reflexivity.
Qed.

Lemma Preload_run_disabled img cap evs : forall w,
  disabled img cap w -> disabled img cap (Preload.run [] evs w).
Proof.
  induction evs as [|ev evs IH]; intros w H; cbn [Preload.run fold_left]; [exact H|].
  apply IH. destruct ev as [| |k ok].
  - apply Preload_click_disabled; [left; reflexivity | exact H].
  - apply Preload_click_disabled; [right; reflexivity | exact H].
  - rewrite (Preload_load_disabled img cap); exact H.
Qed.

Lemma Animations_run_disabled img cap evs : forall w,
  disabled img cap w -> disabled img cap (Animations.run [] evs w).
Proof.
  induction evs as [|ev evs IH]; intros w H; cbn [Animations.run fold_left]; [exact H|].
  apply IH. destruct ev as [| |k ok].
  - apply Animations_click_disabled; [left; reflexivity | exact H].
  - apply Animations_click_disabled; [right; reflexivity | exact H].
  - exact H.
Qed.

(** X8. With an empty array, on a page that has the four elements, the
    listeners are attached all the same. In every state reached, in both
    copies, a click on either button throws; the index is [0] or [-1];
    no load is in flight; the [src] and the [alt] of the picture are those
    the page came with, the picture stays hidden and the caption keeps the
    text "No images to display.". *)
Theorem clicks_on_empty_array_throw :
  forall (img cap prv nxt : Elem) (evs : list Event) (ev : Event),
    ev = ClickPrev \/ ev = ClickNext ->
    let pg := page (Some img) (Some cap) (Some prv) (Some nxt) in
    let wp := Preload.run [] evs (Preload.start [] pg) in
    let wa := Animations.run [] evs (Animations.start [] pg) in
    (threw (Preload.dispatch [] ev wp) = true /\ disabled img cap wp) /\
    (threw (Animations.dispatch [] ev wa) = true /\ disabled img cap wa).
Proof.
  intros img cap prv nxt evs ev Hev pg wp wa.
  assert (Dp : disabled img cap wp).
  { apply Preload_run_disabled. unfold disabled. cbn.
    repeat split; auto. eexists. repeat split. }
  assert (Da : disabled img cap wa).
  { apply Animations_run_disabled. unfold disabled. cbn.
    repeat split; auto. eexists. repeat split. }
  split; (split; [|assumption]).
  - apply (Preload_click_disabled img cap wp ev Hev Dp).
  - apply (Animations_click_disabled img cap wa ev Hev Da).
Qed.

Lemma clicks_on_empty_array_throw_witness :
  let pg := page (Some blank) (Some blank) (Some blank) (Some blank) in
  let wp := Preload.run [] [ClickNext; ClickPrev] (Preload.start [] pg) in
  let wa := Animations.run [] [ClickNext; ClickPrev] (Animations.start [] pg) in
  (threw (Preload.dispatch [] ClickNext wp) = true /\ disabled blank blank wp) /\
  (threw (Animations.dispatch [] ClickNext wa) = true /\ disabled blank blank wa).
Proof.
  apply (clicks_on_empty_array_throw blank blank blank blank [ClickNext; ClickPrev] ClickNext).
  right. reflexivity.
Defined.

(** ** The two copies when no two loads overlap *)

Lemma settledMatch_step es wp wa c :
  isClick c -> settledMatch es wp wa ->
  settledMatch es (Preload.step es (Preload.step es wp c) (LoadDone 0 true))
                  (Animations.step es wa c).
Proof.
  intros Hc (im & ca & A1 & P1 & A2 & P2 & I & R & Q & L1 & L2 & L3 & L4).
  destruct wp as [si ic prv nxt i pl nl pd cs].
  destruct wa as [si' ic' prv' nxt' i' pl' nl' pd' cs'].
  cbn in A1, P1, A2, P2, I, R, Q, L1, L2, L3, L4. subst.
  destruct Hc as [-> | ->].
  - pose proof (prevIndex_inRange es _ R) as R'.
    destruct (at_index_inRange es _ R') as [e He].
    unfold settledMatch. slider_unfold.
    repeat (rewrite He; cbv beta iota). cbn.
    repeat (rewrite He; cbv beta iota). cbn.
    eexists. eexists. repeat split; try reflexivity; apply R'.
  - pose proof (nextIndex_inRange es _ R) as R'.
    destruct (at_index_inRange es _ R') as [e He].
    unfold settledMatch. slider_unfold.
    repeat (rewrite He; cbv beta iota). cbn.
    repeat (rewrite He; cbv beta iota). cbn.
    eexists. eexists. repeat split; try reflexivity; apply R'.
Qed.

Lemma settledMatch_run es cs : forall wp wa,
  Forall isClick cs -> settledMatch es wp wa ->
  settledMatch es
    (Preload.run es (flat_map (fun c => [c; LoadDone 0 true]) cs) wp)
    (Animations.run es cs wa).
Proof.
  induction cs as [|c cs IH]; intros wp wa F M.
  - exact M.
  - inversion F as [|? ? Hc F']; subst.
    cbn [flat_map app Preload.run Animations.run fold_left].
    apply (IH _ _ F'). apply settledMatch_step; assumption.
Qed.

(** X9. On a page that has the four elements and with a non-empty array,
    when every pre-load, the initial one included, succeeds before the
    next click, the copy that pre-loads ends in the state the copy of
    [animations.js] reaches on the same clicks: same index, same caption
    element, same picture with its opacity set to ['1'], and no load left
    in flight. *)
Theorem copies_agree_when_loads_settle :
  forall (es : list Entry) (img cap prv nxt : Elem) (cs : list Event),
    es <> [] ->
    Forall isClick cs ->
    let pg := page (Some img) (Some cap) (Some prv) (Some nxt) in
    let wp := Preload.run es (settled cs) (Preload.start es pg) in
    let wa := Animations.run es cs (Animations.start es pg) in
    currentIndex wp = currentIndex wa /\
    sliderImage wp = option_map (set_opacity "1") (sliderImage wa) /\
    imageCaption wp = imageCaption wa /\
    pending wp = [].
Proof.
  intros es img cap prv nxt cs Hne F pg wp wa.
  assert (M : settledMatch es wp wa).
  { subst wp wa. unfold settled. cbn [Preload.run fold_left].
    apply (settledMatch_run es cs _ _ F).
    destruct es as [|e es]; [congruence|]. subst pg.
    unfold settledMatch. slider_run. cbn.
    eexists. eexists.
    repeat split; try reflexivity; unfold len; cbn [List.length]; lia. }
  destruct M as (im & ca & A1 & P1 & A2 & P2 & I & _ & Q & _).
  rewrite A1, P1, A2, P2. repeat split; assumption.
Qed.

Lemma copies_agree_when_loads_settle_witness :
  let pg := page (Some blank) (Some blank) (Some blank) (Some blank) in
  let wp := Preload.run abc (settled [ClickNext; ClickNext; ClickPrev]) (Preload.start abc pg) in
  let wa := Animations.run abc [ClickNext; ClickNext; ClickPrev] (Animations.start abc pg) in
  currentIndex wp = currentIndex wa /\
  sliderImage wp = option_map (set_opacity "1") (sliderImage wa) /\
  imageCaption wp = imageCaption wa /\
  pending wp = [].
Proof.
  apply (copies_agree_when_loads_settle abc blank blank blank blank
           [ClickNext; ClickNext; ClickPrev]).
  - discriminate.
  - repeat (apply Forall_cons; [unfold isClick; auto|]). apply Forall_nil.
Defined.

(** * Further properties of the viewer *)






(** X11. On a page that has the modal and its close control, in every
    state reached, a click on the close control returns without throwing,
    hides the modal and lets the page scroll again, and keeps the picture
    and the caption the modal last showed; a click on the caption inside
    the modal changes nothing. *)
Theorem close_control_closes :
  forall (doc : Viewer.Node) (m cb : Elem) (mi ct : option Elem) (ov : string)
         (evs : list Viewer.Event),
    let w := Viewer.run evs
               (Viewer.start (Viewer.page doc (Some m) mi ct (Some cb) ov)) in
    let res := Viewer.dispatch (Viewer.ClickModal Viewer.OnCloseControl) w in
    (threw res = false /\
     Viewer.visible (stateOf res) = false /\
     Viewer.overflow (stateOf res) = "auto" /\
     Viewer.modalImg (stateOf res) = Viewer.modalImg w /\
     Viewer.captionText (stateOf res) = Viewer.captionText w) /\
    Viewer.dispatch (Viewer.ClickModal Viewer.OnModalCaption) w = Ok tt w.
Proof.
  intros doc m cb mi ct ov0 evs w res. subst res.
  pose proof (Viewer_reachable_frame doc (Some m) mi ct (Some cb) ov0 evs) as F.
  fold w in F.
  destruct w as [doc' m' mi' ct' cb' ov cl ch mh kl].
  unfold frame in F. cbn in F. injection F as _ _ Hch Hmh _ Hm _ _ _. subst ch mh.
  destruct m' as [e|]; [|discriminate].
  cbn. repeat split; reflexivity.
Qed.




Lemma imgOnclick_visible this line w :
  Viewer.visible w = true ->
  Viewer.visible (stateOf (Viewer.imgOnclick this line w)) = true.
Proof.
  destruct w as [doc m mi ct cb ov cl ch mh kl]. cbn.
  destruct m as [e|]; [|discriminate]. intros _.
  destruct mi, ct; reflexivity.
Qed.

(** X13. On a page without the close control, [setupImageFullscreen]
    throws after it has made the pictures clickable and before it installs
    any way to close: the modal can be opened, and once it is shown no
    click inside it and no key hides it again. *)
Theorem without_close_control_modal_stays_open :
  forall (doc : Viewer.Node) (m : Elem) (mi ct : option Elem) (ov : string)
         (evs : list Viewer.Event) (ev : Viewer.Event),
    let pg := Viewer.page doc (Some m) mi ct None ov in
    let w := Viewer.run evs (Viewer.start pg) in
    threw (Viewer.setupImageFullscreen pg) = true /\
    Viewer.clickable w = Viewer.querySelectorAll doc /\
    (Viewer.visible w = true -> Viewer.visible (Viewer.step w ev) = true).
Proof.
  intros doc m mi ct ov0 evs ev pg w.
  pose proof (Viewer_reachable_frame doc (Some m) mi ct None ov0 evs) as F.
  fold pg in F. fold w in F.
  split; [reflexivity|].
  unfold frame in F. injection F as _ Hcl Hch Hmh Hkl Hm _ _ _.
  split; [exact Hcl|]. intros V.
  destruct ev as [p|t|key].
  - unfold Viewer.step, Viewer.dispatch.
    destruct (Viewer.propagation (Viewer.document w) [] [] p) as [route|]; [|exact V].
    apply (listeners_preserve (fun w' => Viewer.visible w' = true)); [|exact V].
    intros h I w' V'. destruct (onclickOf_In w route h I) as (this & line & ->).
    apply imgOnclick_visible, V'.
  - unfold Viewer.step, Viewer.dispatch. rewrite Hch, Hmh.
    destruct t; exact V.
  - unfold Viewer.step, Viewer.dispatch. rewrite Hkl. exact V.
Qed.

Lemma without_close_control_modal_stays_open_witness :
  let pg := Viewer.page Viewer.sampleDocument (Some blank) (Some blank) (Some blank) None "" in
  let w := Viewer.run [Viewer.ClickImage [1%nat]] (Viewer.start pg) in
  Viewer.visible w = true /\
  threw (Viewer.setupImageFullscreen pg) = true /\
  Viewer.clickable w = Viewer.querySelectorAll Viewer.sampleDocument /\
  (Viewer.visible w = true -> Viewer.visible (Viewer.step w (Viewer.KeyDown "Escape")) = true).
Proof.
  split; [reflexivity|].
  apply (without_close_control_modal_stays_open Viewer.sampleDocument blank
           (Some blank) (Some blank) "" [Viewer.ClickImage [1%nat]] (Viewer.KeyDown "Escape")).
Defined.

(** ** Which elements open the viewer *)








(** * The theme toggler *)

Lemma truthy_toString v : Theme.truthyValue v = true -> truthy (toString v) = true.
Proof. destruct v; [trivial | discriminate]. Qed.

(** What [createThemeToggler] leaves behind. *)
Lemma Theme_load_result :
  forall (attribute storage : option string) (dark : bool),
    let w := Theme.load attribute storage dark in
    let theme := if Theme.truthyValue storage then toString storage
                 else if dark then "dark" else "light" in
    Theme.dataTheme w = Some theme /\
    truthy theme = true /\
    Theme.button w = Some (if String.eqb theme "light"
                           then Theme.moonIcon else Theme.sunIcon) /\
    Theme.stored w = storage /\
    Theme.listener w = true.
Proof.
  intros attribute storage dark.
  unfold Theme.load, Theme.createThemeToggler. cbn.
  destruct (Theme.truthyValue storage) eqn:T.
  - cbn. rewrite (truthy_toString storage T). cbn.
    destruct storage as [s|]; [|discriminate]. cbn. repeat split; reflexivity.
  - destruct dark; cbn; repeat split; reflexivity.
Qed.

(** X15. [createThemeToggler] always leaves the root element with a
    non-empty [data-theme]: the stored theme when there is a non-empty
    one, whatever it is, and otherwise ['dark'] or ['light'] as the system
    prefers; the attribute the markup had does not count, and the last
    fallback of the function never fires. The button shows the moon for
    ['light'] and the sun for everything else. *)
Theorem theme_after_load :
  forall (attribute storage : option string) (dark : bool),
    let w := Theme.load attribute storage dark in
    let theme := if Theme.truthyValue storage then toString storage
                 else if dark then "dark" else "light" in
    Theme.dataTheme w = Some theme /\
    truthy theme = true /\
    Theme.button w = Some (if String.eqb theme "light"
                           then Theme.moonIcon else Theme.sunIcon) /\
    Theme.stored w = storage /\
    Theme.listener w = true.
Proof. intros attribute storage dark. apply Theme_load_result. Qed.

Lemma Theme_load_consistent attribute storage dark :
  themeConsistent (Theme.load attribute storage dark).
Proof.
  unfold themeConsistent, Theme.load, Theme.createThemeToggler. cbn.
  destruct (Theme.truthyValue storage) eqn:T.
  - cbn. rewrite (truthy_toString storage T). cbn.
    destruct storage as [s|]; [|discriminate]. cbn in *. rewrite T.
    repeat split; reflexivity.
  - destruct dark; cbn; rewrite T; repeat split; try reflexivity; discriminate.
Qed.

Lemma Theme_click_consistent w : themeConsistent w -> themeConsistent (Theme.click w).
Proof.
  destruct w as [t s b l d]. unfold themeConsistent, Theme.click, Theme.onClick. cbn.
  intros (-> & _ & _ & _). destruct (Theme.isLight t); cbn; repeat split; reflexivity.
Qed.

Lemma Theme_clicks_consistent n : forall w,
  themeConsistent w -> themeConsistent (Theme.clicks n w).
Proof.
  unfold Theme.clicks.
  induction n as [|n IH]; intros w H; cbn [iter]; [exact H|].
  apply IH, Theme_click_consistent, H.
Qed.

(** X16. In every state of the toggler, after loading and after any
    number of clicks, the button shows the moon exactly when the theme of
    the root element is ['light'] and the sun otherwise, and a non-empty
    stored theme is the theme of the root element. *)
Theorem icon_and_storage_follow_theme :
  forall (attribute storage : option string) (dark : bool) (n : nat),
    let w := Theme.clicks n (Theme.load attribute storage dark) in
    Theme.button w = Some (if Theme.isLight (Theme.dataTheme w)
                           then Theme.moonIcon else Theme.sunIcon) /\
    (Theme.truthyValue (Theme.stored w) = true ->
     Theme.stored w = Theme.dataTheme w).
Proof.
  intros attribute storage dark n w.
  destruct (Theme_clicks_consistent n _ (Theme_load_consistent attribute storage dark))
    as (_ & _ & B & S).
  split; assumption.
Qed.

Lemma icon_and_storage_follow_theme_witness :
  let w := Theme.clicks 3 (Theme.load None (Some "blue") true) in
  Theme.truthyValue (Theme.stored w) = true /\
  Theme.button w = Some (if Theme.isLight (Theme.dataTheme w)
                         then Theme.moonIcon else Theme.sunIcon) /\
  (Theme.truthyValue (Theme.stored w) = true ->
   Theme.stored w = Theme.dataTheme w).
Proof.
  split; [reflexivity|].
  apply (icon_and_storage_follow_theme None (Some "blue") true 3).
Defined.

(** X17. In every state of the toggler a click turns ['light'] into
    ['dark'] and every other theme into ['light'], and stores the new
    theme; a second click brings back a theme that was ['light'] or
    ['dark']. *)
Theorem click_toggles_and_stores :
  forall (attribute storage : option string) (dark : bool) (n : nat),
    let w := Theme.clicks n (Theme.load attribute storage dark) in
    Theme.dataTheme (Theme.click w)
    = Some (if Theme.isLight (Theme.dataTheme w) then "dark" else "light") /\
    Theme.stored (Theme.click w) = Theme.dataTheme (Theme.click w) /\
    (Theme.dataTheme w = Some "light" \/ Theme.dataTheme w = Some "dark" ->
     Theme.dataTheme (Theme.click (Theme.click w)) = Theme.dataTheme w).
Proof.
  intros attribute storage dark n w.
  destruct (Theme_clicks_consistent n _ (Theme_load_consistent attribute storage dark))
    as (L & _).
  fold w in L. destruct w as [t s b l d]. cbn in L. subst l.
  unfold Theme.click, Theme.onClick. cbn.
  split; [|split].
  - destruct (Theme.isLight t); reflexivity.
  - destruct (Theme.isLight t); reflexivity.
  - intros [-> | ->]; reflexivity.
Qed.

Lemma click_toggles_and_stores_witness :
  let w := Theme.clicks 2 (Theme.load None None true) in
  (Theme.dataTheme w = Some "light" \/ Theme.dataTheme w = Some "dark") /\
  Theme.dataTheme (Theme.click w)
  = Some (if Theme.isLight (Theme.dataTheme w) then "dark" else "light") /\
  Theme.stored (Theme.click w) = Theme.dataTheme (Theme.click w) /\
  (Theme.dataTheme w = Some "light" \/ Theme.dataTheme w = Some "dark" ->
   Theme.dataTheme (Theme.click (Theme.click w)) = Theme.dataTheme w).
Proof.
  split; [right; reflexivity|].
  apply (click_toggles_and_stores None None true 2).
Defined.

Lemma Theme_click_stored w :
  themeConsistent w -> Theme.truthyValue (Theme.stored (Theme.click w)) = true.
Proof.
  intros (L & _). destruct w as [t s b l d]. cbn in L. subst l.
  unfold Theme.click, Theme.onClick. cbn. destruct (Theme.isLight t); reflexivity.
Qed.

Lemma Theme_clicks_stored n : forall w,
  themeConsistent w ->
  Theme.truthyValue (Theme.stored w) = true ->
  Theme.truthyValue (Theme.stored (Theme.clicks n w)) = true.
Proof.
  unfold Theme.clicks.
  induction n as [|n IH]; intros w C T; cbn [iter]; [exact T|].
  apply IH; [apply Theme_click_consistent, C | apply Theme_click_stored, C].
Qed.

(** X18. The theme survives leaving the page: once the button has been
    clicked at least once, or when a non-empty theme was stored to begin
    with, loading the page again, whatever its markup and whatever the
    system then prefers, gives the root element the same theme and the
    button the same icon. *)
Theorem theme_survives_reload :
  forall (attribute storage : option string) (dark : bool) (n : nat)
         (attribute' : option string) (dark' : bool),
    (0 < n)%nat \/ Theme.truthyValue storage = true ->
    let w := Theme.clicks n (Theme.load attribute storage dark) in
    Theme.dataTheme (Theme.reload attribute' dark' w) = Theme.dataTheme w /\
    Theme.button (Theme.reload attribute' dark' w) = Theme.button w.
Proof.
  intros attribute storage dark n attribute' dark' H w.
  pose proof (Theme_load_consistent attribute storage dark) as C0.
  assert (C : themeConsistent w) by apply (Theme_clicks_consistent n _ C0).
  assert (T : Theme.truthyValue (Theme.stored w) = true).
  { subst w. destruct n as [|n].
    - destruct H as [H|H]; [lia|].
      destruct (Theme_load_result attribute storage dark) as (_ & _ & _ & E & _).
      unfold Theme.clicks. cbn [iter]. rewrite E. exact H.
    - unfold Theme.clicks. cbn [iter].
      apply (Theme_clicks_stored n).
      + apply Theme_click_consistent, C0.
      + apply Theme_click_stored, C0. }
  destruct C as (_ & _ & B & S). specialize (S T).
  destruct (Theme_load_result attribute' (Theme.stored w) dark') as (D' & _ & B' & _).
  unfold Theme.reload. rewrite D', B', B, T, <- S.
  destruct (Theme.stored w) as [s|]; [|discriminate]. cbn. split; reflexivity.
Qed.

Lemma theme_survives_reload_witness :
  let w := Theme.clicks 1 (Theme.load None None false) in
  Theme.dataTheme (Theme.reload (Some "light") false w) = Theme.dataTheme w /\
  Theme.button (Theme.reload (Some "light") false w) = Theme.button w.
Proof.
  apply (theme_survives_reload None None false 1 (Some "light") false).
  left. lia.
Defined.

(** * The typing effect *)

Example split_examples :
  Typing.split [] = [[]] /\
  Typing.split [97; 98] = [[97; 98]] /\
  Typing.split [97; 10; 98] = [[97]; [98]] /\
  Typing.split [97; 10] = [[97]; []].
Proof. repeat split; reflexivity. Qed.







Lemma ticks_idle n : forall w, Typing.timers w = [] -> Typing.ticks n w = w.
Proof.
  unfold Typing.ticks. induction n as [|n IH]; intros w H; cbn [iter]; [reflexivity|].
  assert (T : Typing.tick w = w) by (unfold Typing.tick, Typing.fire; rewrite H; reflexivity).
  rewrite T. apply IH, H.
Qed.










(** A carriage return in the art is typed as a line feed. *)
Example typing_carriage_return :
  Typing.outputDiv (Typing.ticks 3 (Typing.start (Typing.page true (Some [97; 13; 98]))))
  = Some [97; 10; 98].
Proof. reflexivity. Qed.

(** X20. Without [gsap], on a page that has the art, [createTypingEffect]
    throws a [ReferenceError] after it has emptied the art and before it
    creates the [div] or sets a time-out: the art stays empty and nothing
    is ever typed. On a page without the art the function returns at once
    and changes nothing, with or without [gsap]. *)
Theorem typing_without_gsap_wipes_the_art :
  forall (text : Typing.JsString) (gsap : bool) (k : nat),
    let w := Typing.ticks k (Typing.start (Typing.page false (Some text))) in
    (Typing.createTypingEffect (Typing.page false (Some text))
     = Throw "ReferenceError"
         (Typing.with_lines (Typing.split text)
            (Typing.with_asciiArt [] (Typing.page false (Some text)))) /\
     Typing.asciiArt w = Some [] /\
     Typing.outputDiv w = None /\
     Typing.timers w = []) /\
    Typing.createTypingEffect (Typing.page gsap None) = Ok tt (Typing.page gsap None).
Proof.
  intros text gsap k w. subst w.
  split; [|reflexivity]. split; [reflexivity|].
  rewrite ticks_idle by reflexivity. repeat split; reflexivity.
Qed.
